(** * Payment-slip field extraction: a shallow embedding of [app/ocr_utils.py]

    The extraction engine of the repository turns the text an OCR pass read
    from a payment slip into a record (bank, amount, date, time, sender,
    recipient, reference).  Every extractor is a cascade of regular
    expressions, so the development has three layers:

    - Python strings as lists of code points, with the character data
      ([str.isspace], [\d], [\w], case mappings) that the extractors rely on;
    - a backtracking matcher for the fragment of Python's [re] the program
      uses (greedy and lazy repetition, alternation with priority, capturing
      groups, [^], [$], [\b], look-ahead, IGNORECASE and MULTILINE), with a
      declarative semantics for which the matcher is proved sound and
      complete;
    - the functions of [ocr_utils.py] under the names of the source, the
      longer ones cut into the parts that the properties speak of.

    Character data is CPython's for the Basic Latin, Latin-1 Supplement and
    Thai blocks, and the white-space set is the full [str.isspace] set; code
    points of other blocks are taken as uncased symbols.  Logging is not
    modelled.  The wall clock read by [datetime.now()] is an explicit
    argument. *)

From Stdlib Require Import NArith ZArith Ascii String.
From stdpp Require Import base option list gmap strings.

Local Open Scope nat_scope.

(** ** Python strings *)

(** A Python [str] is a sequence of Unicode code points. *)
Abbreviation str := (list N) (only parsing).

(** Source literals are written as UTF-8 string literals and decoded. *)
Fixpoint utf8_decode (bs : list N) : str :=
  match bs with
  | [] => []
  | b0 :: r0 =>
      if (b0 <? 128)%N then b0 :: utf8_decode r0
      else match r0 with
           | [] => []
           | b1 :: r1 =>
               if (b0 <? 224)%N
               then ((b0 - 192) * 64 + (b1 - 128))%N :: utf8_decode r1
               else match r1 with
                    | [] => []
                    | b2 :: r2 =>
                        if (b0 <? 240)%N
                        then ((b0 - 224) * 4096 + (b1 - 128) * 64 + (b2 - 128))%N
                               :: utf8_decode r2
                        else match r2 with
                             | [] => []
                             | b3 :: r3 =>
                                 ((b0 - 240) * 262144 + (b1 - 128) * 4096
                                  + (b2 - 128) * 64 + (b3 - 128))%N
                                   :: utf8_decode r3
                             end
                    end
           end
  end.

Definition U (lit : string) : str :=
  utf8_decode (map N_of_ascii (list_ascii_of_string lit)).

Definition in_range (lo hi x : N) : bool := ((lo <=? x) && (x <=? hi))%N.

(** [str.isspace] for one character, which is also the class [\s]. *)
Definition is_space (x : N) : bool :=
  in_range 9 13 x || in_range 28 32 x || (x =? 133)%N || (x =? 160)%N
  || (x =? 5760)%N || in_range 8192 8202 x || (x =? 8232)%N || (x =? 8233)%N
  || (x =? 8239)%N || (x =? 8287)%N || (x =? 12288)%N.

(** The class [\d]: decimal digits (ASCII and Thai). *)
Definition is_digit (x : N) : bool := in_range 48 57 x || in_range 3664 3673 x.

Definition digit_value (x : N) : Z :=
  if in_range 48 57 x then Z.of_N x - 48 else Z.of_N x - 3664.

(** The class [\w]: alphanumeric characters and the underscore. *)
Definition is_word (x : N) : bool :=
  in_range 48 57 x || in_range 65 90 x || (x =? 95)%N || in_range 97 122 x
  || (x =? 170)%N || in_range 178 179 x || (x =? 181)%N || in_range 185 186 x
  || in_range 188 190 x || in_range 192 214 x || in_range 216 246 x
  || in_range 248 255 x
  || in_range 3585 3632 x || in_range 3634 3635 x || in_range 3648 3654 x
  || in_range 3664 3673 x.

(** Simple case mappings of one character. *)
Definition lower1 (x : N) : N :=
  if in_range 65 90 x then (x + 32)%N
  else if in_range 192 222 x && negb (x =? 215)%N then (x + 32)%N
  else x.

Definition upper1 (x : N) : N :=
  if in_range 97 122 x then (x - 32)%N
  else if in_range 224 254 x && negb (x =? 247)%N then (x - 32)%N
  else if (x =? 255)%N then 376%N
  else if (x =? 181)%N then 924%N
  else x.

(** [str.upper] uses the full mapping: the sharp s becomes two letters. *)
Definition upper_char (x : N) : str :=
  if (x =? 223)%N then [83; 83]%N else [upper1 x].

Definition upper (t : str) : str := t ≫= upper_char.
Definition lower (t : str) : str := lower1 <$> t.

(** Truth value of an optional string: [None] and [''] are false. *)
Definition truthy (o : option str) : bool :=
  match o with Some (_ :: _) => true | _ => false end.

(** [t[a:b]] for [0 <= a], [0 <= b]. *)
Definition slice (t : str) (a b : nat) : str := take (b - a) (drop a t).

Fixpoint lstrip (t : str) : str :=
  match t with
  | x :: t' => if is_space x then lstrip t' else t
  | [] => []
  end.

Definition rstrip (t : str) : str := reverse (lstrip (reverse t)).

(** [str.strip()] *)
Definition strip (t : str) : str := rstrip (lstrip t).

(** [needle in t], by scanning the start positions from the left. *)
Fixpoint contains (needle t : str) : bool :=
  bool_decide (take (length needle) t = needle)
  || match t with
     | [] => false
     | _ :: t' => contains needle t'
     end.

(** [t.replace(c, '')] for a one-character [c]. *)
Definition remove_char (c : N) (t : str) : str :=
  filter (fun x => x ≠ c) t.

(** [t.split('\n')] *)
Fixpoint split_lines_aux (cur : str) (t : str) : list str :=
  match t with
  | [] => [reverse cur]
  | x :: t' =>
      if (x =? 10)%N then reverse cur :: split_lines_aux [] t'
      else split_lines_aux (x :: cur) t'
  end.

Definition split_lines (t : str) : list str := split_lines_aux [] t.

(** ** Regular expressions *)

Record flags := { IGNORECASE : bool; MULTILINE : bool }.

Definition NOFLAGS := {| IGNORECASE := false; MULTILINE := false |}.
Definition I_ := {| IGNORECASE := true; MULTILINE := false |}.
Definition IM := {| IGNORECASE := true; MULTILINE := true |}.

(** Members of a bracketed class. *)
Inductive citem :=
| CChr (c : N)
| CRange (lo hi : N)
| CDigit
| CSpace.

(** One-character matchers. *)
Inductive atom :=
| AChr (c : N)
| AAny
| ASet (items : list citem).

(** Syntax trees of the patterns, as [re] parses them.  [Rep g lo hi r] is
    [r{lo,hi}] ([hi = None] for no upper bound), greedy when [g]. *)
Inductive regex :=
| Eps
| Chr (a : atom)
| Cat (a b : regex)
| Alt (a b : regex)
| Rep (g : bool) (lo : nat) (hi : option nat) (a : regex)
| Grp (n : nat) (a : regex)
| Bol
| Eol
| WordB
| Ahead (a : regex).

Definition item_has (it : citem) (x : N) : bool :=
  match it with
  | CChr c => (c =? x)%N
  | CRange lo hi => in_range lo hi x
  | CDigit => is_digit x
  | CSpace => is_space x
  end.

Definition set_has (items : list citem) (x : N) : bool :=
  existsb (fun it => item_has it x) items.

Definition atom_accepts (fl : flags) (a : atom) (x : N) : bool :=
  match a with
  | AChr c => if IGNORECASE fl then (lower1 c =? lower1 x)%N else (c =? x)%N
  | AAny => negb (x =? 10)%N
  | ASet items =>
      set_has items x
      || (IGNORECASE fl && (set_has items (lower1 x) || set_has items (upper1 x)))
  end.

Definition below (hi : option nat) (cnt : nat) : bool :=
  match hi with Some h => cnt <? h | None => true end.

(** Captures: the most recent binding of a group number comes first. *)
Definition caps := list (nat * (nat * nat)).

Fixpoint cap_get (n : nat) (c : caps) : option (nat * nat) :=
  match c with
  | [] => None
  | (k, v) :: c' => if k =? n then Some v else cap_get n c'
  end.

Definition mres := (nat * caps)%type.

(** The iteration behind [r{lo,hi}].  [step] matches the body once; an
    iteration has to consume input, and [fuel] bounds the number of
    iterations by the length of the remaining input.  A greedy repetition
    tries one more iteration before it tries to stop; a lazy one tries to
    stop first. *)
Fixpoint rep_loop
    (step : nat -> caps -> (nat -> caps -> option mres) -> option mres)
    (g : bool) (lo : nat) (hi : option nat) (k : nat -> caps -> option mres)
    (fuel cnt i : nat) (c : caps) {struct fuel} : option mres :=
  match fuel with
  | 0 => if lo <=? cnt then k i c else None
  | S f =>
      let more (_ : unit) :=
        if below hi cnt
        then step i c (fun j c1 =>
                         if i <? j then rep_loop step g lo hi k f (S cnt) j c1
                         else None)
        else None in
      let stop (_ : unit) := if lo <=? cnt then k i c else None in
      if g then
        match more () with
        | Some v => Some v
        | None => stop ()
        end
      else
        match stop () with
        | Some v => Some v
        | None => more ()
        end
  end.

Section Matcher.
Variable fl : flags.
Variable s : str.

Definition at_bol (i : nat) : bool :=
  match i with
  | 0 => true
  | S p => MULTILINE fl && bool_decide (s !! p = Some 10%N)
  end.

Definition at_eol (i : nat) : bool :=
  (i =? length s)
  || (if MULTILINE fl then bool_decide (s !! i = Some 10%N)
      else (S i =? length s) && bool_decide (s !! i = Some 10%N)).

Definition word_at (i : nat) : bool :=
  match s !! i with Some x => is_word x | None => false end.

Definition word_before (i : nat) : bool :=
  match i with 0 => false | S p => word_at p end.

Definition at_boundary (i : nat) : bool := xorb (word_before i) (word_at i).

Definition accept : nat -> caps -> option mres := fun j c => Some (j, c).

(** The matcher tries the alternatives in the priority order of [re] and
    hands every candidate end position to the continuation [k]; the first
    candidate the continuation accepts is the result. *)
Fixpoint run (r : regex) (i : nat) (c : caps)
    (k : nat -> caps -> option mres) {struct r} : option mres :=
  match r with
  | Eps => k i c
  | Chr a =>
      match s !! i with
      | Some x => if atom_accepts fl a x then k (S i) c else None
      | None => None
      end
  | Cat a b => run a i c (fun j c1 => run b j c1 k)
  | Alt a b =>
      match run a i c k with
      | Some v => Some v
      | None => run b i c k
      end
  | Rep g lo hi a => rep_loop (run a) g lo hi k (S (length s - i)) 0 i c
  | Grp n a => run a i c (fun j c1 => k j ((n, (i, j)) :: c1))
  | Bol => if at_bol i then k i c else None
  | Eol => if at_eol i then k i c else None
  | WordB => if at_boundary i then k i c else None
  | Ahead a =>
      match run a i c accept with
      | Some (_, c1) => k i c1
      | None => None
      end
  end.

(** [n] further start positions remain after [i]. *)
Fixpoint scan (r : regex) (n i : nat) : option (nat * mres) :=
  match run r i [] accept with
  | Some v => Some (i, v)
  | None =>
      match n with
      | 0 => None
      | S n' => scan r n' (S i)
      end
  end.
End Matcher.

(** *** Declarative semantics of the patterns

    [sem r i c j c'] says that [r] can match the text from position [i] to
    position [j], turning the captures [c] into [c'].  It says nothing of
    priorities: the matcher returns one of the matches it allows. *)

Section Iter.
Variable step : nat -> caps -> nat -> caps -> Prop.
Variables (lo : nat) (hi : option nat).

Inductive iter : nat -> nat -> caps -> nat -> caps -> Prop :=
| iter_stop cnt i c : lo <= cnt -> iter cnt i c i c
| iter_more cnt i c j c1 k c2 :
    below hi cnt = true -> step i c j c1 -> i < j ->
    iter (S cnt) j c1 k c2 -> iter cnt i c k c2.
End Iter.

Section Semantics.
Variable fl : flags.
Variable s : str.

Fixpoint sem (r : regex) (i : nat) (c : caps) (j : nat) (c' : caps) : Prop :=
  match r with
  | Eps => j = i /\ c' = c
  | Chr a => exists x, s !! i = Some x /\ atom_accepts fl a x = true
                       /\ j = S i /\ c' = c
  | Cat a b => exists m c1, sem a i c m c1 /\ sem b m c1 j c'
  | Alt a b => sem a i c j c' \/ sem b i c j c'
  | Rep _ lo hi a => iter (sem a) lo hi 0 i c j c'
  | Grp n a => exists c1, sem a i c j c1 /\ c' = (n, (i, j)) :: c1
  | Bol => at_bol fl s i = true /\ j = i /\ c' = c
  | Eol => at_eol fl s i = true /\ j = i /\ c' = c
  | WordB => at_boundary s i = true /\ j = i /\ c' = c
  | Ahead a => j = i /\ exists j', sem a i c j' c'
  end.

(** Whether a pattern holds a capturing group. *)
Fixpoint has_group (r : regex) : bool :=
  match r with
  | Cat a b | Alt a b => has_group a || has_group b
  | Rep _ _ _ a | Ahead a => has_group a
  | Grp _ _ => true
  | _ => false
  end.

(** A look-ahead commits to the first match of its body; with no group
    inside, nothing of that choice is visible outside. *)
Fixpoint plain_ahead (r : regex) : bool :=
  match r with
  | Cat a b | Alt a b => plain_ahead a && plain_ahead b
  | Rep _ _ _ a | Grp _ a => plain_ahead a
  | Ahead a => negb (has_group a) && plain_ahead a
  | _ => true
  end.
End Semantics.

(** A match object: where the match starts and ends, and its captures. *)
Record pymatch := { m_text : str; m_start : nat; m_end : nat; m_caps : caps }.

Definition mk_match (s : str) (v : nat * mres) : pymatch :=
  {| m_text := s; m_start := v.1; m_end := v.2.1; m_caps := v.2.2 |}.

(** [pattern.search(s, pos)] *)
Definition re_search_from (fl : flags) (r : regex) (s : str) (pos : nat)
  : option pymatch :=
  if pos <=? length s then mk_match s <$> scan fl s r (length s - pos) pos
  else None.

(** [re.search(r, s, flags)] *)
Definition re_search (fl : flags) (r : regex) (s : str) : option pymatch :=
  re_search_from fl r s 0.

(** [re.match(r, s, flags)] *)
Definition re_match (fl : flags) (r : regex) (s : str) : option pymatch :=
  (fun v => mk_match s (0, v)) <$> run fl s r 0 [] accept.

(** [re.fullmatch(r, s, flags)] *)
Definition re_fullmatch (fl : flags) (r : regex) (s : str) : option pymatch :=
  (fun v => mk_match s (0, v))
    <$> run fl s r 0 [] (fun j c => if j =? length s then Some (j, c) else None).

(** [match.group(n)] for [n >= 1]: [None] when the group took no part. *)
Definition group (mt : pymatch) (n : nat) : option str :=
  (fun ab : nat * nat => slice (m_text mt) ab.1 ab.2) <$> cap_get n (m_caps mt).

Fixpoint ngroups (r : regex) : nat :=
  match r with
  | Cat a b | Alt a b => ngroups a `max` ngroups b
  | Rep _ _ _ a | Ahead a => ngroups a
  | Grp n a => n `max` ngroups a
  | _ => 0
  end.

(** [match.groups()] of a match of [r] *)
Definition groups (r : regex) (mt : pymatch) : list (option str) :=
  group mt <$> seq 1 (ngroups r).

(** [re.sub(r, '', s, flags)]: the text outside the matches. *)
Fixpoint sub_loop (fl : flags) (r : regex) (s : str) (fuel pos : nat) : str :=
  match fuel with
  | 0 => drop pos s
  | S f =>
      match re_search_from fl r s pos with
      | None => drop pos s
      | Some mt =>
          if m_start mt <? m_end mt
          then slice s pos (m_start mt) ++ sub_loop fl r s f (m_end mt)
          else slice s pos (S (m_start mt)) ++ sub_loop fl r s f (S (m_start mt))
      end
  end.

Definition re_sub_empty (fl : flags) (r : regex) (s : str) : str :=
  sub_loop fl r s (S (length s)) 0.

(** [re.findall(r, s)] for a pattern with one group: the group's texts. *)
Fixpoint findall_loop (fl : flags) (r : regex) (s : str) (fuel pos : nat)
  : list str :=
  match fuel with
  | 0 => []
  | S f =>
      match re_search_from fl r s pos with
      | None => []
      | Some mt =>
          default [] (group mt 1)
            :: findall_loop fl r s f
                 (if m_start mt <? m_end mt then m_end mt else S (m_start mt))
      end
  end.

Definition re_findall (fl : flags) (r : regex) (s : str) : list str :=
  findall_loop fl r s (S (length s)) 0.

(** *** Pattern combinators *)

Definition chr (c : N) : regex := Chr (AChr c).
Definition set (items : list citem) : regex := Chr (ASet items).

Fixpoint cat (rs : list regex) : regex :=
  match rs with
  | [] => Eps
  | [r] => r
  | r :: rs' => Cat r (cat rs')
  end.

Fixpoint alt (rs : list regex) : regex :=
  match rs with
  | [] => Eps
  | [r] => r
  | r :: rs' => Alt r (alt rs')
  end.

(** A literal, which is also what [re.escape] of it compiles to. *)
Definition lit (t : str) : regex := cat (chr <$> t).
Definition L (t : string) : regex := lit (U t).

Definition star (r : regex) : regex := Rep true 0 None r.
Definition plus (r : regex) : regex := Rep true 1 None r.
Definition opt (r : regex) : regex := Rep true 0 (Some 1) r.
Definition lazy_plus (r : regex) : regex := Rep false 1 None r.
Definition rep (lo hi : nat) (r : regex) : regex := Rep true lo (Some hi) r.
Definition at_least (lo : nat) (r : regex) : regex := Rep true lo None r.

Definition digit : regex := set [CDigit].
Definition space : regex := set [CSpace].


(** ** Exceptions *)

Inductive exn := ValueError | IndexError | TypeError | AttributeError.

(** The outcome of code that may raise. *)
Inductive res (A : Type) :=
| Ok (a : A)
| Raise (e : exn).
Arguments Ok {A} a.
Arguments Raise {A} e.

Definition res_bind {A B} (x : res A) (f : A -> res B) : res B :=
  match x with
  | Ok a => f a
  | Raise e => Raise e
  end.

Notation "'do' x <- e ; k" := (res_bind e (fun x => k))
  (at level 10, x name, e at level 100, k at level 200).

(** [try: body  except Exception: handler] *)
Definition try_except {A} (body : res A) (handler : exn -> res A) : res A :=
  match body with
  | Ok a => Ok a
  | Raise e => handler e
  end.

(** [l[i]], with Python's negative indices. *)
Definition index {A} (l : list A) (i : Z) : res A :=
  let j := (if i <? 0 then i + Z.of_nat (length l) else i)%Z in
  if (j <? 0)%Z then Raise IndexError
  else match l !! Z.to_nat j with
       | Some a => Ok a
       | None => Raise IndexError
       end.

(** A method call on a value that may be [None]. *)
Definition as_str (o : option str) : res str :=
  match o with
  | Some t => Ok t
  | None => Raise AttributeError
  end.

(** Digits with single underscores between them, most significant first. *)
Fixpoint int_digits (acc : Z) (after_digit : bool) (t : str) : option Z :=
  match t with
  | [] => if after_digit then Some acc else None
  | x :: t' =>
      if is_digit x then int_digits (acc * 10 + digit_value x) true t'
      else if (x =? 95)%N && after_digit then
             match t' with
             | y :: _ => if is_digit y then int_digits acc false t' else None
             | [] => None
             end
           else None
  end.

(** [int(x)] *)
Definition py_int (o : option str) : res Z :=
  match o with
  | None => Raise TypeError
  | Some t =>
      let body := strip t in
      let signed :=
        match body with
        | 45%N :: r => (true, r)
        | 43%N :: r => (false, r)
        | _ => (false, body)
        end in
      match int_digits 0 false signed.2 with
      | Some v => Ok (if signed.1 then - v else v)%Z
      | None => Raise ValueError
      end
  end.

(** [len(x)] *)
Definition py_len (o : option str) : res Z :=
  match o with
  | Some t => Ok (Z.of_nat (length t))
  | None => Raise TypeError
  end.

Fixpoint digits_of (fuel : nat) (n : N) (acc : str) : str :=
  match fuel with
  | 0 => acc
  | S f =>
      let acc' := (48 + n mod 10)%N :: acc in
      if (n <? 10)%N then acc' else digits_of f (n / 10)%N acc'
  end.

(** [str(n)] for an integer *)
Definition str_of_Z (z : Z) : str :=
  let n := Z.abs_N z in
  let ds := digits_of (S (N.to_nat (N.log2 n))) n [] in
  if (z <? 0)%Z then 45%N :: ds else ds.

(** *** [datetime] *)

Record date := { dt_year : Z; dt_month : Z; dt_day : Z }.

Definition is_leap (y : Z) : bool :=
  ((y mod 4 =? 0) && (negb (y mod 100 =? 0) || (y mod 400 =? 0)))%Z.

Definition days_in_month (y m : Z) : Z :=
  (if m =? 2 then (if is_leap y then 29 else 28)
   else if (m =? 4) || (m =? 6) || (m =? 9) || (m =? 11) then 30
   else 31)%Z.

(** [datetime(y, m, d)] *)
Definition datetime (y m d : Z) : res date :=
  if ((1 <=? y) && (y <=? 9999) && (1 <=? m) && (m <=? 12)
      && (1 <=? d) && (d <=? days_in_month y m))%Z
  then Ok {| dt_year := y; dt_month := m; dt_day := d |}
  else Raise ValueError.

(** ** The extractors of [ocr_utils.py] *)

(** The loop over [match.groups()]: the first group that is neither [None]
    nor empty is returned, stripped. *)
Fixpoint first_group (gs : list (option str)) : option str :=
  match gs with
  | [] => None
  | g :: gs' => if truthy g then strip <$> g else first_group gs'
  end.

Fixpoint find_first_match (text : str) (patterns : list regex) : option str :=
  match patterns with
  | [] => None
  | pattern :: rest =>
      match re_search IM pattern text with
      | Some mt =>
          match first_group (groups pattern mt) with
          | Some v => Some v
          | None => find_first_match text rest
          end
      | None => find_first_match text rest
      end
  end.

(** *** Dates *)

Definition parse_thai_months : list (str * Z) :=
  [ (U "มกราคม", 1); (U "กุมภาพันธ์", 2); (U "มีนาคม", 3); (U "เมษายน", 4);
    (U "พฤษภาคม", 5); (U "มิถุนายน", 6); (U "กรกฎาคม", 7); (U "สิงหาคม", 8);
    (U "กันยายน", 9); (U "ตุลาคม", 10); (U "พฤศจิกายน", 11); (U "ธันวาคม", 12);
    (U "ม.ค.", 1); (U "ก.พ.", 2); (U "มี.ค.", 3); (U "เม.ย.", 4);
    (U "พ.ค.", 5); (U "มิ.ย.", 6); (U "ก.ค.", 7); (U "ส.ค.", 8);
    (U "ก.ย.", 9); (U "ต.ค.", 10); (U "พ.ย.", 11); (U "ธ.ค.", 12) ]%Z.

Definition full_thai_months : list str :=
  [ U "มกราคม"; U "กุมภาพันธ์"; U "มีนาคม"; U "เมษายน"; U "พฤษภาคม";
    U "มิถุนายน"; U "กรกฎาคม"; U "สิงหาคม"; U "กันยายน"; U "ตุลาคม";
    U "พฤศจิกายน"; U "ธันวาคม" ].

(** [(months)[\s/.-]+(\d{2,4})], IGNORECASE *)
Definition month_year_pattern : regex :=
  cat [ Grp 1 (alt (lit <$> parse_thai_months.*1));
        plus (set [CSpace; CChr 47; CChr 46; CChr 45]);
        Grp 2 (rep 2 4 digit) ].

(** [(\d{1,2})[/-](\d{1,2})[/-](\d{2,4})] *)
Definition numeric_date_pattern : regex :=
  cat [ Grp 1 (rep 1 2 digit); set [CChr 47; CChr 45];
        Grp 2 (rep 1 2 digit); set [CChr 47; CChr 45];
        Grp 3 (rep 2 4 digit) ].

(** [\b(\d{1,2})\b] *)
Definition day_pattern : regex := cat [ WordB; Grp 1 (rep 1 2 digit); WordB ].

(** The three components as the variables [day_str], [month_str] and
    [year_str] hold them when the [try] block is entered. *)
Record date_parts :=
  { day_str : option str; month_str : option str; year_str : option str }.

(** The first half of [_find_date]: [Ok None] stands for the two
    [return None] statements before the [try] block. *)
Definition _find_date_parts (text : str) : res (option date_parts) :=
  match re_search I_ month_year_pattern text with
  | None =>
      match re_search NOFLAGS numeric_date_pattern text with
      | None => Ok None
      | Some numeric_match =>
          Ok (Some {| day_str := group numeric_match 1;
                      month_str := group numeric_match 2;
                      year_str := group numeric_match 3 |})
      end
  | Some month_year_match =>
      let text_before_month := take (m_start month_year_match) text in
      let possible_days := re_findall NOFLAGS day_pattern text_before_month in
      match possible_days with
      | [] => Ok None
      | _ =>
          do d <- index possible_days (-1);
          Ok (Some {| day_str := Some d;
                      month_str := group month_year_match 1;
                      year_str := group month_year_match 2 |})
      end
  end.

(** The loop over [parse_thai_months.items()] after [int(month_str)] failed. *)
Fixpoint month_by_name (table : list (str * Z)) (month_str : str) : option Z :=
  match table with
  | [] => None
  | (th_month_key, num) :: rest =>
      if contains (lower th_month_key) (lower month_str) then Some num
      else month_by_name rest month_str
  end.

(** What the [try] block computes before it formats the result: the day,
    the Buddhist-era year, and the validated [datetime] object. *)
Definition _find_date_resolve (now_year : Z) (p : date_parts)
  : res (Z * Z * date) :=
  do day <- py_int (day_str p);
  do year_be0 <- py_int (year_str p);
  do n <- py_len (year_str p);
  let year_be :=
    (if n <=? 2 then year_be0 + ((now_year + 543) / 100) * 100 else year_be0)%Z in
  let year_ad := (if 2500 <? year_be then year_be - 543 else year_be)%Z in
  do month_num <-
     match py_int (month_str p) with
     | Ok v => Ok (Some v)
     | Raise ValueError =>
         do ms <- as_str (month_str p);
         Ok (month_by_name parse_thai_months ms)
     | Raise e => Raise e
     end;
  match month_num with
  | None => Raise ValueError
  | Some month_num =>
      if negb ((1 <=? day) && (day <=? 31) && (1 <=? month_num) && (month_num <=? 12))%Z
      then Raise ValueError
      else
        do date_obj <- datetime year_ad month_num day;
        Ok (day, year_be, date_obj)
  end.

(** The [try] block. *)
Definition _find_date_convert (now_year : Z) (p : date_parts) : res str :=
  do r <- _find_date_resolve now_year p;
  let '(day, year_be, date_obj) := r in
  do month_name_full <- index full_thai_months (dt_month date_obj - 1);
  Ok (str_of_Z day ++ U " " ++ month_name_full ++ U " " ++ str_of_Z year_be).

(** The [except] clause. *)
Definition _find_date_fallback (p : date_parts) : option str :=
  if truthy (day_str p) && truthy (month_str p) && truthy (year_str p)
  then Some (default [] (day_str p) ++ U " " ++ default [] (month_str p)
             ++ U " " ++ default [] (year_str p))
  else None.

Definition _find_date (now_year : Z) (text : str) : res (option str) :=
  do parts <- _find_date_parts text;
  match parts with
  | None => Ok None
  | Some p =>
      try_except (do v <- _find_date_convert now_year p; Ok (Some v))
                 (fun _ => Ok (_find_date_fallback p))
  end.

(** *** Time *)

(** [\d{1,2}:\d{2}(?::\d{2})?] *)
Definition hh_mm_ss_opt (lo : nat) : list regex :=
  [ rep lo 2 digit; chr 58; rep 2 2 digit; opt (cat [chr 58; rep 2 2 digit]) ].

(** [\d{1,2}\s+[ก-ฮเ-์.]+\s+\d{2,4}[,\s]+(\d{1,2}:\d{2}(?::\d{2})?)] *)
Definition time_on_date_line_pattern : regex :=
  cat [ rep 1 2 digit; plus space;
        plus (set [CRange 3585 3630; CRange 3648 3660; CChr 46]);
        plus space; rep 2 4 digit; plus (set [CChr 44; CSpace]);
        Grp 1 (cat (hh_mm_ss_opt 1)) ].

Definition time_patterns : list regex :=
  [ cat [ alt [L "เวลา"; L "Time"]; star space; star (set [CChr 58; CSpace]);
          Grp 1 (cat (hh_mm_ss_opt 2)) ];
    cat [ WordB;
          Grp 1 (cat [rep 2 2 digit; chr 58; rep 2 2 digit; chr 58; rep 2 2 digit]);
          WordB ];
    cat [ WordB; Grp 1 (cat [rep 1 2 digit; chr 58; rep 2 2 digit]); WordB ] ].

Definition _find_time (text : str) : option str :=
  match re_search I_ time_on_date_line_pattern text with
  | Some time_on_date_line => group time_on_date_line 1
  | None => find_first_match text time_patterns
  end.

(** *** Amount *)

(** [[\d,]+\.\d{2}] *)
Definition decimal_2 : regex :=
  cat [ plus (set [CDigit; CChr 44]); chr 46; rep 2 2 digit ].

Definition amount_patterns : list regex :=
  [ cat [ alt [ L "จำนวนเงิน"; L "Amount"; L "โอนเงินสำเร็จ"; L "ยอดเงิน";
                cat [L "จำนวน"; opt space; L "เงิน"] ];
          star space; star (set [CChr 58; CSpace]); Grp 1 decimal_2 ];
    cat [ Grp 1 decimal_2; star space; alt [L "บาท"; L "BAHT"; L "thb"] ];
    cat [ WordB;
          Grp 1 (cat [rep 1 10 (set [CDigit; CChr 44]); chr 46; rep 2 2 digit]);
          WordB ] ].

Definition _parse_amount (text : str) : option str :=
  let amount := find_first_match text amount_patterns in
  if truthy amount then remove_char 44 <$> amount else None.

(** *** Names *)

(** [^[.\s]+] and [^[.\sาอ]+] *)
Definition leading_dots : regex := cat [ Bol; plus (set [CChr 46; CSpace]) ].
Definition leading_noise : regex :=
  cat [ Bol; plus (set [CChr 46; CSpace; CChr 3634; CChr 3629]) ].

Definition _clean_ocr_name (name : option str) : option str :=
  match name with
  | Some (c :: name') =>
      let cleaned := re_sub_empty NOFLAGS leading_dots (c :: name') in
      let cleaned := remove_char 3642 cleaned in
      let cleaned := strip (re_sub_empty NOFLAGS leading_noise cleaned) in
      Some (strip cleaned)
  | _ => None
  end.

(** [(?:นาย|นาง|นางสาว|น\.ส\.|คุณ|บจก\.|หจก\.)?] *)
Definition honorific : regex :=
  opt (alt [ L "นาย"; L "นาง"; L "นางสาว"; L "น.ส."; L "คุณ"; L "บจก."; L "หจก." ]).

(** The class of the name patterns: Thai characters from U+0E01 to U+0E59,
    Latin letters, white space, the dot and the two quote characters. *)
Definition name_chars : regex :=
  set [ CRange 3585 3673; CRange 65 90; CRange 97 122; CSpace; CChr 46;
        CChr 39; CChr 34 ].

(** [^(H?\s*C+)] with [H] the optional honorific and [C] the class above. *)
Definition name_pattern : regex :=
  cat [ Bol; Grp 1 (cat [honorific; star space; plus name_chars]) ].

(** [x-?[\dx]+] and [x-?[\dx-]+] *)
Definition masked_account : regex :=
  cat [ chr 120; opt (chr 45); plus (set [CDigit; CChr 120]) ].
Definition masked_account_dash : regex :=
  cat [ chr 120; opt (chr 45); plus (set [CDigit; CChr 120; CChr 45]) ].

(** [[line.strip() for line in text.split('\n') if line.strip()]] *)
Definition stripped_lines (text : str) : list str :=
  filter (fun l => l ≠ []) (strip <$> split_lines text).

(** [any(kw.upper() in previous_line for kw in context_keywords)] *)
Definition any_keyword_in (context_keywords : list str) (line : str) : bool :=
  existsb (fun kw => contains (upper kw) line) context_keywords.

(** The loop of [_find_standalone_name] from index [i] on; [rest] is
    [lines[i:]]. *)
Fixpoint standalone_loop (lines : list str) (context_keywords : list str)
    (i : nat) (rest : list str) : res (option str) :=
  match rest with
  | [] => Ok None
  | line :: rest' =>
      match re_match I_ name_pattern line with
      | Some name_match =>
          if 0 <? i then
            do previous <- index lines (Z.of_nat i - 1);
            let previous_line := upper previous in
            if any_keyword_in context_keywords previous_line then
              do g <- as_str (group name_match 1);
              let name := strip g in
              Ok (Some (strip (re_sub_empty NOFLAGS
                                 (cat [star space; masked_account; star (Chr AAny)])
                                 name)))
            else standalone_loop lines context_keywords (S i) rest'
          else standalone_loop lines context_keywords (S i) rest'
      | None => standalone_loop lines context_keywords (S i) rest'
      end
  end.

Definition _find_standalone_name (text : str) (context_keywords : list str)
  : res (option str) :=
  let lines := stripped_lines text in
  standalone_loop lines context_keywords 0 lines.

(** The keywords are joined with [|] into the patterns as they are; none of
    the program's keywords holds a character that is special in a pattern. *)
Definition keyword_alt (keywords : list str) : regex := alt (lit <$> keywords).

Definition name_patterns (keywords : list str) : list regex :=
  [ cat [ keyword_alt keywords;
          star (set [CSpace; CChr 58; CChr 46; CChr 45]);
          Grp 1 (cat [honorific; star space; lazy_plus name_chars]);
          Ahead (alt [ cat [star space; masked_account];
                       cat [star space; L "ธนาคาร"];
                       Eol ]) ];
    cat [ keyword_alt keywords; plus space;
          Grp 1 (cat [honorific; star space; plus name_chars]) ] ].

Definition honorifics : list str :=
  [ U "นาย"; U "นาง"; U "นางสาว"; U "น.ส."; U "คุณ" ].

Definition _parse_name (text : str) (keywords : list str) : option str :=
  match find_first_match text (name_patterns keywords) with
  | Some (c :: name') =>
      let name := c :: name' in
      let cleaned_name :=
        strip (re_sub_empty NOFLAGS
                 (cat [plus (set [CDigit; CSpace; CChr 45]); Eol]) name) in
      let cleaned_name :=
        strip (re_sub_empty I_ (Grp 1 (keyword_alt keywords)) cleaned_name) in
      if bool_decide (cleaned_name ≠ [])
         && negb (bool_decide (lower cleaned_name ∈ honorifics))
      then Some cleaned_name
      else None
  | _ => None
  end.

(** [(\b\d{10}\b|x-?[\dx-]{5,})], IGNORECASE *)
Definition account_pattern : regex :=
  Grp 1 (alt [ cat [WordB; rep 10 10 digit; WordB];
               cat [ chr 120; opt (chr 45);
                     at_least 5 (set [CDigit; CChr 120; CChr 45]) ] ]).

Definition non_name_clues : regex :=
  Grp 1 (alt [ L "ธนาคาร"; L "bank"; cat [WordB; L "ธ."]; cat [WordB; L "ธ"; space];
               L "โอนเงิน"; L "จำนวนเงิน"; L "วันที่"; L "สำเร็จ"; L "บาท";
               L "baht"; L "amount"; L "transfer" ]).

Definition matched (o : option pymatch) : bool :=
  match o with Some _ => true | None => false end.

(** The three ways a line is confirmed as a name by an account number. *)
Definition name_confirmed (lines : list str) (i : nat) (line : str) : res bool :=
  let name_confirmed := matched (re_search I_ account_pattern line) in
  do name_confirmed <-
     (if negb name_confirmed && (S i <? length lines) then
        do next <- index lines (Z.of_nat i + 1);
        Ok (matched (re_search I_ account_pattern next))
      else Ok name_confirmed);
  if negb name_confirmed && (S (S i) <? length lines) then
    do next <- index lines (Z.of_nat i + 1);
    if matched (re_search I_ non_name_clues next) then
      do after <- index lines (Z.of_nat i + 2);
      Ok (matched (re_search I_ account_pattern after))
    else Ok false
  else Ok name_confirmed.

(** What one turn of the loop of [_find_names_by_account_number] makes of
    the line at index [i]: the cleaned name when the line has the shape of a
    name, holds no clue against it and is confirmed by an account number;
    [None] when the turn ends before a name is ready. *)
Definition name_candidate (lines : list str) (i : nat) (line : str)
  : res (option str) :=
  match re_match I_ name_pattern line with
  | Some name_match =>
      if negb (matched (re_search I_ non_name_clues line)) then
        do confirmed <- name_confirmed lines i line;
        if confirmed then
          do g <- as_str (group name_match 1);
          let name := strip g in
          if matched (re_fullmatch I_ (plus (set [CSpace; CChr 120; CChr 45])) name)
          then Ok None
          else
            Ok (Some (strip (re_sub_empty I_
                               (cat [plus space; masked_account_dash; star (Chr AAny)])
                               name)))
        else Ok None
      else Ok None
  | None => Ok None
  end.

(** The loop from index [i] on, with the list [found_names] it appends to. *)
Fixpoint names_loop (lines : list str) (i : nat) (rest : list str)
    (found_names : list str) : res (list str) :=
  match rest with
  | [] => Ok found_names
  | line :: rest' =>
      do candidate <- name_candidate lines i line;
      match candidate with
      | Some name =>
          if (2 <? length name) && negb (bool_decide (name ∈ found_names))
          then names_loop lines (S i) rest' (found_names ++ [name])
          else names_loop lines (S i) rest' found_names
      | None => names_loop lines (S i) rest' found_names
      end
  end.

Definition _find_names_by_account_number (text : str) : res (list str) :=
  let lines := stripped_lines text in
  names_loop lines 0 lines [].

(** *** The orchestrator *)

Definition bank_keywords : list (str * list str) :=
  [ (U "กรุงเทพ", [U "BBL"; U "BBLA"; U "BANGKOK BANK"; U "ธนาคารกรุงเทพ"; U "กรุงเทพ"]);
    (U "กสิกรไทย",
      [ U "KBANK"; U "KASIKORNBANK"; U "KASI"; U "KPLUS"; U "K+"; U "+"; U "MAKE";
        U "MAKE by KBank"; U "ธนาคารกสิกรไทย"; U "กสิกรไทย"; U "กสิกร";
        U "ร.กสิกรไทย"; U "ภ ส ก ร ไท ย" ]);
    (U "ไทยพาณิชย์",
      [U "SCB"; U "SIAM COMMERCIAL BANK"; U "ธนาคารไทยพาณิชย์"; U "ไทยพาณิชย์"]);
    (U "กรุงไทย",
      [ U "KTB"; U "KRUNGTHAI"; U "krungthai"; U "ธนาคารกรุงไทย"; U "กรุงไทย";
        U "ก ร ง ไท ย" ]);
    (U "ทหารไทยธนชาต",
      [ U "TTB"; U "ttb"; U "TMBTHANACHART BANK"; U "ธนาคารทหารไทยธนชาต";
        U "ทีเอ็มบีธนชาต"; U "ทหารไทย"; U "ธนชาต"; U "TTMB" ]);
    (U "ออมสิน",
      [ U "GSB"; U "GOVERNMENT SAVINGS BANK"; U "MYMO"; U "ธนาคารออมสิน"; U "ออมสิน";
        U "อ อ ม ส น" ]);
    (U "กรุงศรีอยุธยา",
      [U "BAY"; U "KRUNGSRI"; U "BANK OF AYUDHYA"; U "ธนาคารกรุงศรีอยุธยา"; U "กรุงศรี"]);
    (U "ธ.ก.ส.", [U "BAAC"; U "ธกส"; U "ธ.ก.ส."]) ].

Definition recipient_markers : list str :=
  [ U "ไปยัง"; U "ไปที่"; U "TO"; U "ผู้รับเงิน"; U "ผู้รับ"; U "RECIPIENT"; U "ถึง" ].

Definition sender_keywords : list str := [ U "จาก"; U "From"; U "ผู้โอน" ].
Definition recipient_keywords : list str :=
  [ U "ไปยัง"; U "ไปที่"; U "To"; U "ผู้รับเงิน"; U "ผู้รับ"; U "Recipient"; U "ถึง" ].

(** One loop over [bank_keywords.items()]: the first bank one of whose
    escaped keywords is found in [section]. *)
Fixpoint bank_loop (table : list (str * list str)) (section : str) : option str :=
  match table with
  | [] => None
  | (name, kw_list) :: rest =>
      if matched (re_search NOFLAGS (alt (lit <$> kw_list)) section) then Some name
      else bank_loop rest section
  end.

(** The text the first loop searches: [text_upper], cut at the offset of the
    first recipient marker of [text] when there is one. *)
Definition sender_section_text (text : str) : str :=
  let text_upper := upper text in
  match re_search I_ (alt (lit <$> recipient_markers)) text with
  | Some mt => take (m_start mt) text_upper
  | None => text_upper
  end.

Definition find_bank (text : str) : option str :=
  let sender_bank := bank_loop bank_keywords (sender_section_text text) in
  if negb (truthy sender_bank) then bank_loop bank_keywords (upper text)
  else sender_bank.

(** [_parse_name(text, kws) or _find_standalone_name(text, kws)] *)
Definition name_by_keywords (text : str) (keywords : list str) : res (option str) :=
  let name := _parse_name text keywords in
  if truthy name then Ok name else _find_standalone_name text keywords.

(** The guard of the positional strategy. *)
Definition needs_position (sender recipient : option str) : bool :=
  negb (truthy sender) || negb (truthy recipient).

(** The block under [if not sender or not recipient]. *)
Definition fill_by_position (text : str) (sender recipient : option str)
  : res (option str * option str) :=
  do names_from_position <- _find_names_by_account_number text;
  do sender <-
     (if negb (truthy sender) && (1 <=? length names_from_position)
      then do n <- index names_from_position 0; Ok (Some n)
      else Ok sender);
  do recipient <-
     (if negb (truthy recipient) && (2 <=? length names_from_position)
      then do n <- index names_from_position 1; Ok (Some n)
      else Ok recipient);
  Ok (sender, recipient).

Definition find_names (text : str) : res (option str * option str) :=
  do sender <- name_by_keywords text sender_keywords;
  do recipient <- name_by_keywords text recipient_keywords;
  if needs_position sender recipient then fill_by_position text sender recipient
  else Ok (sender, recipient).

Definition ref_patterns : list regex :=
  [ cat [ alt [ L "รหัสอ้างอิง"; L "หมายเลขอ้างอิง"; L "เลขที่อ้างอิง"; L "เลขที่รายการ";
                L "รหัสอ้างอิง"; L "เลขอ้างอิง"; L "อ้างอิง"; L "Ref";
                cat [L "Ref."; star space; L "No"]; L "No." ];
          star (set [CSpace; CChr 58; CChr 46]);
          Grp 1 (plus (set [CRange 97 122; CRange 65 90; CRange 48 57; CSpace; CChr 45])) ];
    cat [ WordB;
          Grp 1 (at_least 15 (set [CRange 97 122; CRange 65 90; CRange 48 57]));
          WordB ] ].

Definition find_reference (text : str) : option str :=
  let reference := find_first_match text ref_patterns in
  if truthy reference then remove_char 32 <$> reference else None.

(** The record is a dictionary; an absent field is a key bound to [None]. *)
Definition parse_payment_slip (now_year : Z) (text : option str)
  : res (gmap string (option str)) :=
  match text with
  | Some (c :: text') =>
      let text := c :: text' in
      let parsed_data : gmap string (option str) := {[ "raw_text" := Some text ]} in
      let parsed_data := <[ "bank" := None ]> parsed_data in
      let parsed_data := <[ "bank" := find_bank text ]> parsed_data in
      let parsed_data := <[ "amount" := _parse_amount text ]> parsed_data in
      do date <- _find_date now_year text;
      let parsed_data := <[ "date" := date ]> parsed_data in
      let parsed_data := <[ "time" := _find_time text ]> parsed_data in
      do names <- find_names text;
      let parsed_data := <[ "sender" := _clean_ocr_name names.1 ]> parsed_data in
      let parsed_data := <[ "recipient" := _clean_ocr_name names.2 ]> parsed_data in
      let parsed_data := <[ "reference" := find_reference text ]> parsed_data in
      Ok parsed_data
  | _ => Ok {[ "error" := Some (U "ไม่มีข้อความให้") ]}
  end.

(** ** Vocabulary of the properties *)

(** [occurs fl r t]: the pattern has a match somewhere in the text. *)
Definition occurs (fl : flags) (r : regex) (t : str) : Prop :=
  exists i j c, i <= length t /\ sem fl t r i [] j c.

(** [g] is the first group of [gs] that is neither [None] nor empty. *)
Definition first_nonempty (gs : list (option str)) (g : str) : Prop :=
  exists gs1 gs2,
    gs = gs1 ++ Some g :: gs2 /\ g <> []
    /\ Forall (fun x => truthy x = false) gs1.

(** The pattern has no match in the text, or a match whose groups are all
    empty. *)
Definition yields_nothing (text : str) (p : regex) : Prop :=
  match re_search IM p text with
  | None => True
  | Some mt => Forall (fun x => truthy x = false) (groups p mt)
  end.

(** The pattern has a match in the text whose first non-empty group is
    [v] once stripped. *)
Definition yields (text : str) (p : regex) (v : str) : Prop :=
  exists mt g,
    re_search IM p text = Some mt /\ first_nonempty (groups p mt) g
    /\ v = strip g.

(** The reading of the pattern matcher's contract in which the first
    pattern that matches decides the result alone. *)
Definition first_match_decides (text : str) (patterns : list regex)
    (result : option str) : Prop :=
  forall ps1 p ps2 mt,
    patterns = ps1 ++ p :: ps2 ->
    Forall (fun q => re_search IM q text = None) ps1 ->
    re_search IM p text = Some mt ->
    (forall g, first_nonempty (groups p mt) g -> result = Some (strip g))
    /\ (Forall (fun x => truthy x = false) (groups p mt) -> result = None).

(** [^\d+\.\d{2}$], the shape the specification gives to an amount, and
    [^\d*\.\d{2}$], the shape without the demand for an integer digit. *)
Definition amount_shape : regex :=
  cat [ Bol; plus digit; chr 46; rep 2 2 digit; Eol ].
Definition amount_shape_loose : regex :=
  cat [ Bol; star digit; chr 46; rep 2 2 digit; Eol ].

(** One of the two date patterns has a match somewhere in the text. *)
Definition date_pattern_present (text : str) : Prop :=
  occurs I_ month_year_pattern text \/ occurs NOFLAGS numeric_date_pattern text.

(** The candidates of all lines, in the order of the lines. *)
Fixpoint name_candidates (lines : list str) (i : nat) (rest : list str)
  : res (list str) :=
  match rest with
  | [] => Ok []
  | line :: rest' =>
      do candidate <- name_candidate lines i line;
      do more <- name_candidates lines (S i) rest';
      Ok (match candidate with Some name => name :: more | None => more end)
  end.

(** Keeps the first occurrence of every element, in order. *)
Fixpoint keep_first (seen : list str) (l : list str) : list str :=
  match l with
  | [] => []
  | x :: l' =>
      if bool_decide (x ∈ seen) then keep_first seen l'
      else x :: keep_first (seen ++ [x]) l'
  end.

(** *** Sample texts *)

Definition nl : str := [10%N].

(** A sender labelled by a keyword, and two unlabelled names, each on a line
    with a masked account number. *)
Definition slip_sender_only : str :=
  U "From Bob" ++ nl ++ U "Ann xxx-1234" ++ nl ++ U "Joe xxx-5678".

(** The three components of [15 มกราคม 2567] and of [15/01/2024]. *)
Definition parts_15_jan_2567 : date_parts :=
  {| day_str := Some (U "15"); month_str := Some (U "มกราคม");
     year_str := Some (U "2567") |}.
Definition parts_15_01_2024 : date_parts :=
  {| day_str := Some (U "15"); month_str := Some (U "01");
     year_str := Some (U "2024") |}.

(** *** The bank resolver as the specification words it

    The search window is the text before the first recipient marker, and a
    bank is found in a window when one of its keywords occurs in it without
    regard to case. *)

Fixpoint spec_first_marker (markers : list str) (t : str) (i : nat) : option nat :=
  if existsb (fun mk => bool_decide (take (length mk) (lower t) = lower mk)) markers
  then Some i
  else match t with
       | [] => None
       | _ :: t' => spec_first_marker markers t' (S i)
       end.

Fixpoint spec_bank_in (table : list (str * list str)) (window : str) : option str :=
  match table with
  | [] => None
  | (name, kw_list) :: rest =>
      if existsb (fun kw => contains (lower kw) (lower window)) kw_list
      then Some name
      else spec_bank_in rest window
  end.

Definition spec_bank_resolver (text : str) : option str :=
  let window :=
    match spec_first_marker recipient_markers text 0 with
    | Some p => take p text
    | None => text
    end in
  match spec_bank_in bank_keywords window with
  | Some b => Some b
  | None => spec_bank_in bank_keywords text
  end.

(** A keyword of bank [b] occurs in [window], and no keyword of a bank
    declared before [b] does. *)
Definition first_bank_with_keyword (table : list (str * list str))
    (window : str) (b : str) : Prop :=
  exists t1 kws t2,
    table = t1 ++ (b, kws) :: t2
    /\ (exists kw, kw ∈ kws /\ contains kw window = true)
    /\ Forall (fun e : str * list str =>
                 forall kw, kw ∈ e.2 -> contains kw window = false) t1.

(** *** Auxiliary vocabulary of the proofs *)

(** Members of a class that case folding cannot reach: characters below
    the letters, and the digits. *)
Definition low_item (it : citem) : Prop :=
  match it with
  | CChr c => (c < 65)%N
  | CRange lo hi => (hi < 65)%N
  | CDigit => True
  | CSpace => False
  end.

(** Digits and commas, at least one, then a point and two digits. *)
Definition decimal_text (t : str) : Prop :=
  exists xs d1 d2,
    t = xs ++ [46%N; d1; d2] /\ xs <> []
    /\ Forall (fun x => is_digit x = true \/ x = 44%N) xs
    /\ is_digit d1 = true /\ is_digit d2 = true.

(** A keyword character that upper-cased text can hold and that stands for
    itself there: an upper-case ASCII letter or a character without case. *)
Definition nice_char (k : N) : bool :=
  (k <? 65)%N || in_range 65 90 k || (3585 <=? k)%N.

(** A keyword with a lower-case ASCII letter never occurs in upper-cased
    text; the table is sound when every such keyword of a bank is covered
    by a keyword of the same bank that occurs, without regard to case,
    wherever it does. *)
Definition has_lower (kw : str) : bool := existsb (in_range 97 122) kw.

Definition covered (kws : list str) (kw : str) : bool :=
  existsb (fun kw' => forallb nice_char kw' && contains (lower kw') (lower kw)) kws.

Definition kws_ok (kws : list str) : bool :=
  forallb (fun kw => forallb nice_char kw || (has_lower kw && covered kws kw)) kws.

(** * Proofs *)

(** ** The matcher and the semantics *)

Section MatcherFacts.
Variable fl : flags.
Variable s : str.

Lemma rep_loop_sound step (P : nat -> caps -> nat -> caps -> Prop) g lo hi k :
  (forall i c K v, step i c K = Some v ->
                   exists j c', P i c j c' /\ K j c' = Some v) ->
  forall fuel cnt i c v,
    rep_loop step g lo hi k fuel cnt i c = Some v ->
    exists j c', iter P lo hi cnt i c j c' /\ k j c' = Some v.
Proof.
  intros Hstep. induction fuel as [|f IH]; intros cnt i c v; simpl.
  - destruct (lo <=? cnt) eqn:Hlo; [|done].
    intros Hk. exists i, c. split; [|done].
    apply iter_stop. by apply Nat.leb_le.
  - assert (Hmore : forall v,
               (if below hi cnt
                then step i c (fun j c1 =>
                                 if i <? j then rep_loop step g lo hi k f (S cnt) j c1
                                 else None)
                else None) = Some v ->
               exists j c', iter P lo hi cnt i c j c' /\ k j c' = Some v).
    { intros w. destruct (below hi cnt) eqn:Hb; [|done].
      intros Hs. apply Hstep in Hs as (j & c1 & HP & HK).
      destruct (i <? j) eqn:Hij; [|done].
      apply IH in HK as (j' & c' & Hit & Hk).
      exists j', c'. split; [|done].
      eapply iter_more; eauto. by apply Nat.ltb_lt. }
    assert (Hstop : forall v,
               (if lo <=? cnt then k i c else None) = Some v ->
               exists j c', iter P lo hi cnt i c j c' /\ k j c' = Some v).
    { intros w. destruct (lo <=? cnt) eqn:Hlo; [|done].
      intros Hk. exists i, c. split; [|done].
      apply iter_stop. by apply Nat.leb_le. }
    destruct g.
    + destruct (if below hi cnt then _ else None) as [w|] eqn:E.
      * intros [= <-]. by apply Hmore.
      * apply Hstop.
    + destruct (if lo <=? cnt then _ else None) as [w|] eqn:E.
      * intros [= <-]. by apply Hstop.
      * apply Hmore.
Qed.

(** Soundness: a result of the matcher is a match of the semantics that
    the continuation accepted. *)
Lemma run_sound r :
  forall i c k v,
    run fl s r i c k = Some v ->
    exists j c', sem fl s r i c j c' /\ k j c' = Some v.
Proof.
  induction r as [|a|a IHa b IHb|a IHa b IHb|g lo hi a IHa|n a IHa| | | |a IHa];
    intros i c k v; cbn [run sem].
  - intros Hk. by exists i, c.
  - destruct (s !! i) as [x|] eqn:Hx; [|done].
    destruct (atom_accepts fl a x) eqn:Ha; [|done].
    intros Hk. exists (S i), c. split; [|done]. by exists x.
  - intros H. apply IHa in H as (m & c1 & Ha & H).
    apply IHb in H as (j & c' & Hb & Hk).
    exists j, c'. split; [|done]. by exists m, c1.
  - destruct (run fl s a i c k) as [w|] eqn:E.
    + intros [= <-]. apply IHa in E as (j & c' & Ha & Hk).
      exists j, c'. by split; [left|].
    + intros H. apply IHb in H as (j & c' & Hb & Hk).
      exists j, c'. by split; [right|].
  - intros H. eapply rep_loop_sound in H; [done|]. apply IHa.
  - intros H. apply IHa in H as (j & c1 & Ha & Hk).
    exists j, ((n, (i, j)) :: c1). split; [|done]. by exists c1.
  - destruct (at_bol fl s i) eqn:E; [|done]. intros Hk. by exists i, c.
  - destruct (at_eol fl s i) eqn:E; [|done]. intros Hk. by exists i, c.
  - destruct (at_boundary s i) eqn:E; [|done]. intros Hk. by exists i, c.
  - destruct (run fl s a i c accept) as [[j1 c1]|] eqn:E; [|done].
    intros Hk. apply IHa in E as (j' & c' & Ha & E). unfold accept in E.
    injection E as -> ->.
    exists i, c1. split; [|done]. split; [done|]. by exists j1.
Qed.

Lemma iter_bounds (P : nat -> caps -> nat -> caps -> Prop) lo hi :
  (forall i c j c', P i c j c' -> i <= j <= i `max` length s) ->
  forall cnt i c j c', iter P lo hi cnt i c j c' -> i <= j <= i `max` length s.
Proof.
  intros HP cnt i c j c' H. induction H as [|cnt i c j c1 k c2 _ Hs Hlt _ IH]; [lia|].
  apply HP in Hs. lia.
Qed.

(** A match never moves backwards and never leaves the text. *)
Lemma sem_bounds r :
  forall i c j c', sem fl s r i c j c' -> i <= j <= i `max` length s.
Proof.
  induction r as [|a|a IHa b IHb|a IHa b IHb|g lo hi a IHa|n a IHa| | | |a IHa];
    intros i c j c'; simpl.
  - intros [-> _]. lia.
  - intros (x & Hx & _ & -> & _). apply lookup_lt_Some in Hx. lia.
  - intros (m & c1 & Ha & Hb). apply IHa in Ha. apply IHb in Hb. lia.
  - intros [H|H]; eauto.
  - apply iter_bounds, IHa.
  - intros (c1 & Ha & _). eauto.
  - intros (_ & -> & _). lia.
  - intros (_ & -> & _). lia.
  - intros (_ & -> & _). lia.
  - intros [-> _]. lia.
Qed.

Lemma iter_no_group (P : nat -> caps -> nat -> caps -> Prop) lo hi :
  (forall i c j c', P i c j c' -> c' = c) ->
  forall cnt i c j c', iter P lo hi cnt i c j c' -> c' = c.
Proof.
  intros HP cnt i c j c' H. induction H as [|cnt i c j c1 k c2 _ Hs _ _ IH]; [done|].
  apply HP in Hs. congruence.
Qed.

Lemma sem_no_group r :
  has_group r = false ->
  forall i c j c', sem fl s r i c j c' -> c' = c.
Proof.
  induction r as [|a|a IHa b IHb|a IHa b IHb|g lo hi a IHa|n a IHa| | | |a IHa];
    simpl; intros Hg i c j c'.
  - by intros [_ ->].
  - by intros (x & _ & _ & _ & ->).
  - apply orb_false_iff in Hg as [Hga Hgb].
    intros (m & c1 & Ha & Hb).
    apply (IHa Hga) in Ha. apply (IHb Hgb) in Hb. congruence.
  - apply orb_false_iff in Hg as [Hga Hgb]. intros [H|H]; eauto.
  - apply iter_no_group. eauto.
  - done.
  - by intros (_ & _ & ->).
  - by intros (_ & _ & ->).
  - by intros (_ & _ & ->).
  - intros [_ [j' H]]. eauto.
Qed.

Lemma rep_loop_complete step (P : nat -> caps -> nat -> caps -> Prop) g lo hi k :
  (forall i c j c', P i c j c' -> i <= j <= i `max` length s) ->
  (forall i c j c' K, P i c j c' -> is_Some (K j c') -> is_Some (step i c K)) ->
  forall cnt i c j c',
    iter P lo hi cnt i c j c' ->
    is_Some (k j c') ->
    forall fuel, length s - i < fuel ->
    is_Some (rep_loop step g lo hi k fuel cnt i c).
Proof.
  intros Hb Hstep cnt i c j c' H Hk.
  induction H as [cnt i c Hlo|cnt i c j c1 m c2 Hbelow Hs Hlt _ IH];
    intros [|f] Hfuel; [lia| |lia|]; simpl.
  - apply Nat.leb_le in Hlo. rewrite Hlo.
    destruct Hk as [w Hw]. rewrite Hw.
    destruct g; [|simpl; eauto].
    destruct (if below hi cnt then _ else None); simpl; eauto.
  - rewrite Hbelow.
    assert (is_Some (step i c (fun j c1 =>
               if i <? j then rep_loop step g lo hi k f (S cnt) j c1 else None)))
      as [w Hw].
    { eapply Hstep; [done|].
      assert ((i <? j) = true) as -> by (by apply Nat.ltb_lt).
      apply IH; [done|]. apply Hb in Hs. lia. }
    rewrite Hw. destruct g; [simpl; eauto|].
    destruct (if lo <=? cnt then _ else None); simpl; eauto.
Qed.

(** Completeness: when the semantics allows a match that the continuation
    accepts, the matcher returns a result. *)
Lemma run_complete r :
  plain_ahead r = true ->
  forall i c j c' k,
    sem fl s r i c j c' -> is_Some (k j c') -> is_Some (run fl s r i c k).
Proof.
  induction r as [|a|a IHa b IHb|a IHa b IHb|g lo hi a IHa|n a IHa| | | |a IHa];
    cbn [run sem plain_ahead]; intros Hp i c j c' k.
  - by intros [-> ->].
  - intros (x & -> & -> & -> & ->) Hk. done.
  - apply andb_true_iff in Hp as [Hpa Hpb].
    intros (m & c1 & Ha & Hb) Hk. eapply IHa; eauto.
  - apply andb_true_iff in Hp as [Hpa Hpb].
    intros [H|H] Hk.
    + destruct (IHa Hpa _ _ _ _ _ H Hk) as [w ->]. done.
    + destruct (run fl s a i c k); [done|]. eauto.
  - intros H Hk. eapply rep_loop_complete; eauto using sem_bounds.
  - intros (c1 & Ha & ->) Hk. eapply IHa; eauto.
  - by intros (-> & -> & ->).
  - by intros (-> & -> & ->).
  - by intros (-> & -> & ->).
  - apply andb_true_iff in Hp as [Hg Hpa]. apply negb_true_iff in Hg.
    intros [-> [j' Ha]] Hk.
    pose proof (sem_no_group _ Hg _ _ _ _ Ha) as ->.
    destruct (IHa Hpa _ _ _ _ accept Ha) as [[j1 c1] E]; [done|].
    rewrite E. apply run_sound in E as (j2 & c2 & Ha2 & E). unfold accept in E.
    injection E as -> ->.
    by rewrite (sem_no_group _ Hg _ _ _ _ Ha2).
Qed.

Lemma scan_Some r n i p v :
  scan fl s r n i = Some (p, v) ->
  i <= p <= i + n /\ run fl s r p [] accept = Some v
  /\ forall q, i <= q < p -> run fl s r q [] accept = None.
Proof.
  revert i. induction n as [|n IH]; intros i; simpl.
  - destruct (run fl s r i [] accept) as [w|] eqn:E; [|done].
    intros [= <- <-]. split; [lia|]. split; [done|]. intros q. lia.
  - destruct (run fl s r i [] accept) as [w|] eqn:E.
    + intros [= <- <-]. split; [lia|]. split; [done|]. intros q. lia.
    + intros H. apply IH in H as (Hp & Hv & Hq).
      split; [lia|]. split; [done|].
      intros q Hq'. destruct (decide (q = i)) as [->|]; [done|]. apply Hq. lia.
Qed.

Lemma scan_None r n i :
  scan fl s r n i = None ->
  forall q, i <= q <= i + n -> run fl s r q [] accept = None.
Proof.
  revert i. induction n as [|n IH]; intros i; simpl.
  - destruct (run fl s r i [] accept) eqn:E; [done|].
    intros _ q Hq. by replace q with i by lia.
  - destruct (run fl s r i [] accept) eqn:E; [done|].
    intros H q Hq. destruct (decide (q = i)) as [->|]; [done|].
    eapply IH; [done|]. lia.
Qed.
End MatcherFacts.

(** ** Character data *)

Lemma in_range_spec lo hi x : in_range lo hi x = true <-> (lo <= x <= hi)%N.
Proof. unfold in_range. rewrite andb_true_iff, !N.leb_le. done. Qed.

Lemma is_digit_spec x :
  is_digit x = true <-> (48 <= x <= 57 \/ 3664 <= x <= 3673)%N.
Proof. unfold is_digit. rewrite orb_true_iff, !in_range_spec. done. Qed.

Lemma is_space_spec x :
  is_space x = true <->
  (9 <= x <= 13 \/ 28 <= x <= 32 \/ x = 133 \/ x = 160 \/ x = 5760
   \/ 8192 <= x <= 8202 \/ x = 8232 \/ x = 8233 \/ x = 8239 \/ x = 8287
   \/ x = 12288)%N.
Proof.
  unfold is_space. rewrite !orb_true_iff, !in_range_spec, !N.eqb_eq. tauto.
Qed.

Lemma lower1_cases x :
  lower1 x = x
  \/ (lower1 x = (x + 32)%N /\ (65 <= x <= 90 \/ 192 <= x <= 222)%N).
Proof.
  unfold lower1.
  destruct (in_range 65 90 x) eqn:E1.
  { apply in_range_spec in E1. right. split; [done|]. by left. }
  destruct (in_range 192 222 x) eqn:E2; [|by left].
  apply in_range_spec in E2.
  destruct (x =? 215)%N; simpl; [by left|]. right. split; [done|]. by right.
Qed.

Lemma upper1_cases x :
  upper1 x = x
  \/ (upper1 x = (x - 32)%N /\ (97 <= x <= 122 \/ 224 <= x <= 254)%N)
  \/ (upper1 x = 376%N /\ x = 255%N)
  \/ (upper1 x = 924%N /\ x = 181%N).
Proof.
  unfold upper1.
  destruct (in_range 97 122 x) eqn:E1.
  { apply in_range_spec in E1. right. left. split; [done|]. by left. }
  destruct (in_range 224 254 x) eqn:E2.
  { apply in_range_spec in E2.
    destruct (x =? 247)%N eqn:E3; simpl.
    - apply N.eqb_eq in E3 as ->. by left.
    - right. left. split; [done|]. by right. }
  simpl. destruct (x =? 255)%N eqn:E3.
  { apply N.eqb_eq in E3. right. right. by left. }
  destruct (x =? 181)%N eqn:E4; [|by left].
  apply N.eqb_eq in E4. right. right. by right.
Qed.

(** Case folding never turns a character into a digit, a white-space
    character or a punctuation mark of the classes below. *)
Lemma lower1_low x : (lower1 x < 65 \/ 3585 <= lower1 x)%N -> lower1 x = x.
Proof. destruct (lower1_cases x) as [?|[? ?]]; [done|lia]. Qed.

Lemma upper1_low x : (upper1 x < 65 \/ 3585 <= upper1 x)%N -> upper1 x = x.
Proof. destruct (upper1_cases x) as [?|[[? ?]|[[? ?]|[? ?]]]]; [done|lia..]. Qed.

Lemma set_has_cons it items x :
  set_has (it :: items) x = item_has it x || set_has items x.
Proof. done. Qed.

(** What the classes of the amount and date patterns accept, with or
    without IGNORECASE. *)
Lemma accepts_chr_low fl c x :
  (c < 65)%N -> atom_accepts fl (AChr c) x = true -> x = c.
Proof.
  intros Hc. simpl. destruct (IGNORECASE fl).
  - intros H%N.eqb_eq.
    assert (lower1 c = c) as Hl by (destruct (lower1_cases c) as [?|[? ?]]; [done|lia]).
    rewrite Hl in H. symmetry. rewrite H. apply lower1_low. lia.
  - by intros H%N.eqb_eq.
Qed.

Lemma item_has_low it x :
  low_item it -> item_has it x = true -> (x < 65 \/ 3585 <= x)%N.
Proof.
  destruct it as [c|lo hi| |]; simpl; [| | |done].
  - intros Hc H%N.eqb_eq. lia.
  - intros Hc H%in_range_spec. lia.
  - intros _ H%is_digit_spec. lia.
Qed.

Lemma set_has_low items x :
  Forall low_item items -> set_has items x = true -> (x < 65 \/ 3585 <= x)%N.
Proof.
  induction 1 as [|it items Hit _ IH]; [done|].
  rewrite set_has_cons, orb_true_iff. intros [H|H]; eauto using item_has_low.
Qed.

Lemma accepts_set_low fl items x :
  Forall low_item items ->
  atom_accepts fl (ASet items) x = true -> set_has items x = true.
Proof.
  intros Hlow. simpl. rewrite orb_true_iff, andb_true_iff, orb_true_iff.
  intros [H|[_ [H|H]]]; [done| |].
  - pose proof (set_has_low _ _ Hlow H) as Hx. by rewrite (lower1_low _ Hx) in H.
  - pose proof (set_has_low _ _ Hlow H) as Hx. by rewrite (upper1_low _ Hx) in H.
Qed.

Lemma digit_not_space x : is_digit x = true -> is_space x = false.
Proof.
  intros H%is_digit_spec. apply not_true_is_false. intros H'%is_space_spec. lia.
Qed.

(** ** Slices *)

Lemma slice_length (t : str) a b : b <= length t -> length (slice t a b) = b - a.
Proof. intros Hb. unfold slice. rewrite length_take, length_drop. lia. Qed.

Lemma slice_nil (t : str) a : slice t a a = [].
Proof. unfold slice. by rewrite Nat.sub_diag. Qed.

Lemma slice_cons (t : str) a b x :
  t !! a = Some x -> a < b -> slice t a b = x :: slice t (S a) b.
Proof.
  intros Hx Hab. unfold slice.
  rewrite (drop_S _ _ _ Hx). destruct (b - a) as [|n] eqn:E; [lia|].
  simpl. do 2 f_equal. lia.
Qed.

Lemma slice_split (t : str) a b c :
  a <= b <= c -> slice t a c = slice t a b ++ slice t b c.
Proof.
  intros [Hab Hbc]. unfold slice.
  replace (drop b t) with (drop (b - a) (drop a t)).
  2:{ rewrite drop_drop. f_equal. lia. }
  replace (c - a) with ((b - a) + (c - b)) by lia.
  generalize (drop a t) (b - a) (c - b). clear.
  intros l n. revert l. induction n as [|n IH]; intros [|x l] m; simpl; try done.
  - by rewrite take_nil.
  - by rewrite IH.
Qed.

Lemma slice_nonempty (t : str) a b : a < b -> a < length t -> slice t a b <> [].
Proof.
  intros Hab Ha E. apply (f_equal length) in E. unfold slice in E.
  rewrite length_take, length_drop in E. simpl in E. lia.
Qed.

Section PatternFacts.
Variable fl : flags.
Variable s : str.

Lemma sem_cat_cons r rs i c j c' :
  sem fl s (cat (r :: rs)) i c j c'
  <-> exists m c1, sem fl s r i c m c1 /\ sem fl s (cat rs) m c1 j c'.
Proof.
  destruct rs as [|r' rs]; [|done]. simpl. split.
  - intros H. by exists j, c'.
  - by intros (m & c1 & H & -> & ->).
Qed.

Lemma sem_alt rs i c j c' :
  rs <> [] ->
  sem fl s (alt rs) i c j c' <-> exists r, r ∈ rs /\ sem fl s r i c j c'.
Proof.
  induction rs as [|r rs IH]; [done|]. intros _.
  destruct rs as [|r' rs].
  - simpl. split.
    + intros H. exists r. split; [apply list_elem_of_here|done].
    + by intros (r0 & ->%list_elem_of_singleton & H).
  - change (alt (r :: r' :: rs)) with (Alt r (alt (r' :: rs))).
    cbn [sem]. rewrite IH by done. split.
    + intros [H|(r0 & Hin & H)].
      * exists r. split; [apply list_elem_of_here|done].
      * exists r0. split; [by apply list_elem_of_further|done].
    + intros (r0 & Hin & H). apply elem_of_cons in Hin as [->|Hin]; [by left|].
      right. by exists r0.
Qed.

(** A literal matches a stretch of its own length, whose characters agree
    with it (up to case under IGNORECASE). *)
Lemma sem_lit t i c j c' :
  sem fl s (lit t) i c j c'
  <-> j = i + length t /\ c' = c
      /\ Forall2 (fun p x => atom_accepts fl (AChr p) x = true) t (slice s i j).
Proof.
  unfold lit. revert i. induction t as [|p t IH]; intros i.
  - simpl. rewrite Nat.add_0_r. split.
    + intros [-> ->]. by rewrite slice_nil.
    + by intros (-> & -> & _).
  - rewrite fmap_cons, sem_cat_cons. split.
    + intros (m & c1 & (x & Hx & Hacc & -> & ->) & H).
      apply IH in H as (-> & -> & HF). simpl.
      split; [lia|]. split; [done|].
      rewrite (slice_cons _ _ _ _ Hx) by lia. by constructor.
    + intros (-> & -> & HF). simpl in HF.
      destruct (s !! i) as [x|] eqn:Hx.
      * rewrite (slice_cons _ _ _ _ Hx) in HF by lia.
        apply Forall2_cons in HF as [Hacc HF].
        exists (S i), c. split; [by exists x|]. apply IH.
        simpl. split; [lia|]. split; [done|].
        by replace (S i + length t) with (i + S (length t)) by lia.
      * apply Forall2_length in HF. unfold slice in HF.
        rewrite length_take, length_drop in HF. simpl in HF.
        apply lookup_ge_None in Hx. lia.
Qed.

(** A repeated one-character class matches a stretch of accepted
    characters and binds no group. *)
Lemma iter_chr a lo hi cnt i c j c' :
  iter (sem fl s (Chr a)) lo hi cnt i c j c' ->
  c' = c /\ i <= j /\ lo <= cnt + (j - i)
  /\ (forall h, hi = Some h -> i < j -> cnt + (j - i) <= h)
  /\ Forall (fun x => atom_accepts fl a x = true) (slice s i j).
Proof.
  induction 1 as [cnt i c Hlo|cnt i c j c1 k c2 Hb Hs Hlt _ IH].
  - split; [done|]. split; [done|]. split; [lia|]. split; [lia|].
    rewrite slice_nil. constructor.
  - destruct Hs as (x & Hx & Hacc & -> & ->).
    destruct IH as (-> & Hle & Hlo & Hhi & HF).
    split; [done|]. split; [lia|]. split; [lia|]. split.
    + intros h Hh _. destruct (decide (S i = k)) as [<-|Hne].
      * subst hi. simpl in Hb. apply Nat.ltb_lt in Hb. lia.
      * specialize (Hhi h Hh). lia.
    + rewrite (slice_cons _ _ _ _ Hx) by lia. by constructor.
Qed.

Lemma search_from_Some r pos mt :
  re_search_from fl r s pos = Some mt ->
  m_text mt = s /\ pos <= m_start mt <= length s
  /\ sem fl s r (m_start mt) [] (m_end mt) (m_caps mt)
  /\ m_start mt <= m_end mt <= length s
  /\ forall q, pos <= q < m_start mt -> run fl s r q [] accept = None.
Proof.
  unfold re_search_from. destruct (pos <=? length s) eqn:Hpos; [|done].
  apply Nat.leb_le in Hpos.
  destruct (scan fl s r (length s - pos) pos) as [[p [j c]]|] eqn:E; [|done].
  intros [= <-]. simpl. apply scan_Some in E as (Hp & Hrun & Hq).
  apply run_sound in Hrun as (j' & c' & Hsem & Hacc).
  unfold accept in Hacc. injection Hacc as -> ->.
  pose proof (sem_bounds _ _ _ _ _ _ _ Hsem) as Hb.
  split; [done|]. split; [lia|]. split; [done|]. split; [lia|done].
Qed.

Lemma search_from_None r pos :
  re_search_from fl r s pos = None ->
  forall q, pos <= q <= length s -> run fl s r q [] accept = None.
Proof.
  unfold re_search_from. destruct (pos <=? length s) eqn:Hpos.
  - apply Nat.leb_le in Hpos.
    destruct (scan fl s r (length s - pos) pos) eqn:E; [done|].
    intros _ q Hq. eapply scan_None; [done|]. lia.
  - apply Nat.leb_gt in Hpos. intros _ q Hq. lia.
Qed.

Lemma match_Some r mt :
  re_match fl r s = Some mt ->
  m_text mt = s /\ m_start mt = 0
  /\ sem fl s r 0 [] (m_end mt) (m_caps mt) /\ m_end mt <= length s.
Proof.
  unfold re_match. destruct (run fl s r 0 [] accept) as [[j c]|] eqn:E; [|done].
  intros [= <-]. simpl. apply run_sound in E as (j' & c' & Hsem & Hacc).
  unfold accept in Hacc. injection Hacc as -> ->.
  pose proof (sem_bounds _ _ _ _ _ _ _ Hsem) as Hb.
  split; [done|]. split; [done|]. split; [done|]. lia.
Qed.
End PatternFacts.


Lemma search_Some_occurs fl r t mt :
  re_search fl r t = Some mt -> occurs fl r t.
Proof.
  intros H%search_from_Some. destruct H as (_ & Hs & Hsem & _).
  exists (m_start mt), (m_end mt), (m_caps mt). split; [lia|done].
Qed.

Lemma search_None_iff fl r t :
  plain_ahead r = true ->
  re_search fl r t = None <-> ~ occurs fl r t.
Proof.
  intros Hp. split.
  - intros H (i & j & c & Hi & Hsem).
    pose proof (search_from_None _ _ _ _ H i) as Hrun.
    destruct (run_complete fl t r Hp i [] j c accept Hsem) as [v Hv]; [done|].
    rewrite Hrun in Hv; [done|lia].
  - intros H. destruct (re_search fl r t) as [mt|] eqn:E; [|done].
    destruct H. by eapply search_Some_occurs.
Qed.

(** ** The pattern matcher *)

Lemma first_group_Some gs v :
  first_group gs = Some v <-> exists g, first_nonempty gs g /\ v = strip g.
Proof.
  induction gs as [|g gs IH]; simpl.
  - split; [done|]. intros (g & (gs1 & gs2 & E & _) & _). by destruct gs1.
  - destruct (truthy g) eqn:Hg.
    + destruct g as [[|x g]|]; try done. simpl. split.
      * intros [= <-]. exists (x :: g). split; [|done].
        exists [], gs. by repeat split.
      * intros (g' & (gs1 & gs2 & E & Hne & Hall) & ->).
        destruct gs1 as [|y gs1].
        -- simpl in E. by injection E as <- _.
        -- injection E as <- _. apply Forall_cons in Hall as [Hy _]. done.
    + rewrite IH. split.
      * intros (g' & (gs1 & gs2 & -> & Hne & Hall) & ->).
        exists g'. split; [|done]. exists (g :: gs1), gs2.
        split; [done|]. split; [done|]. by constructor.
      * intros (g' & (gs1 & gs2 & E & Hne & Hall) & ->).
        destruct gs1 as [|y gs1].
        -- simpl in E. injection E as -> _. by destruct g'.
        -- injection E as <- ->. apply Forall_cons in Hall as [_ Hall].
           exists g'. split; [|done]. by exists gs1, gs2.
Qed.

Lemma first_group_None gs :
  first_group gs = None <-> Forall (fun x => truthy x = false) gs.
Proof.
  induction gs as [|g gs IH]; simpl.
  - split; [constructor|done].
  - destruct (truthy g) eqn:Hg.
    + destruct g as [[|x g]|]; try done. simpl. split; [done|].
      intros [H _]%Forall_cons. done.
    + rewrite IH. split.
      * intros H. by constructor.
      * by intros [_ H]%Forall_cons.
Qed.

(** C2 (as amended): [find_first_match] returns the stripped first non-empty
    group of the first pattern that has a match with a non-empty group; the
    patterns before it have no match or only empty groups, and the result is
    absent exactly when that holds of every pattern. *)
Theorem find_first_match_spec (text : str) (patterns : list regex) :
  match find_first_match text patterns with
  | Some v =>
      exists ps1 p ps2,
        patterns = ps1 ++ p :: ps2
        /\ Forall (yields_nothing text) ps1
        /\ yields text p v
  | None => Forall (yields_nothing text) patterns
  end.
Proof.
  induction patterns as [|p ps IH]; simpl; [constructor|].
  destruct (re_search IM p text) as [mt|] eqn:Hs.
  - destruct (first_group (groups p mt)) as [v|] eqn:Hg.
    + exists [], p, ps. split; [done|]. split; [constructor|].
      apply first_group_Some in Hg as (g & Hg & ->). by exists mt, g.
    + apply first_group_None in Hg.
      assert (yields_nothing text p) as Hp by (unfold yields_nothing; by rewrite Hs).
      destruct (find_first_match text ps) as [v|].
      * destruct IH as (ps1 & q & ps2 & -> & Hall & Hy).
        exists (p :: ps1), q, ps2. split; [done|]. split; [by constructor|done].
      * by constructor.
  - assert (yields_nothing text p) as Hp by (unfold yields_nothing; by rewrite Hs).
    destruct (find_first_match text ps) as [v|].
    + destruct IH as (ps1 & q & ps2 & -> & Hall & Hy).
      exists (p :: ps1), q, ps2. split; [done|]. split; [by constructor|done].
    + by constructor.
Qed.

(** C2 (counterexample): on the text [ab], the first pattern [(x?)a]
    matches with an empty group and the second pattern [(b)] gives the
    result, so the first pattern that matches does not decide alone. *)
Lemma find_first_match_falls_through :
  ~ first_match_decides (U "ab")
      [cat [Grp 1 (opt (chr 120)); chr 97]; Grp 1 (chr 98)]
      (find_first_match (U "ab")
         [cat [Grp 1 (opt (chr 120)); chr 97]; Grp 1 (chr 98)]).
Proof.
  intros H.
  destruct (re_search IM (cat [Grp 1 (opt (chr 120)); chr 97]) (U "ab"))
    as [mt|] eqn:E; [|by vm_compute in E].
  destruct (H [] _ [Grp 1 (chr 98)] mt eq_refl (Forall_nil_2 _) E) as [_ Hnone].
  vm_compute in E. injection E as <-.
  assert (Hall : Forall (fun x => truthy x = false) [Some ([] : list N)])
    by (by repeat constructor).
  specialize (Hnone Hall). by vm_compute in Hnone.
Qed.

Lemma find_first_match_yields text patterns v :
  find_first_match text patterns = Some v ->
  exists p, p ∈ patterns /\ yields text p v.
Proof.
  induction patterns as [|p ps IH]; simpl; [done|].
  assert (Hrest : find_first_match text ps = Some v ->
                  exists q, q ∈ p :: ps /\ yields text q v).
  { intros (q & Hq & Hy)%IH. exists q. split; [by apply list_elem_of_further|done]. }
  destruct (re_search IM p text) as [mt|] eqn:Hs; [|done].
  destruct (first_group (groups p mt)) as [w|] eqn:Hg; [|done].
  intros [= ->]. exists p. split; [apply list_elem_of_here|].
  apply first_group_Some in Hg as (g & Hg & ->). by exists mt, g.
Qed.

(** With a single group, the first non-empty group is group 1. *)
Lemma first_nonempty_single (o : option str) g :
  first_nonempty [o] g -> o = Some g /\ g <> [].
Proof.
  intros (gs1 & gs2 & E & Hne & _). destruct gs1 as [|x gs1].
  - by injection E as -> _.
  - injection E as _ E. by destruct gs1.
Qed.

Lemma lstrip_id (t : str) x :
  head t = Some x -> is_space x = false -> lstrip t = t.
Proof. destruct t as [|y t]; [done|]. intros [= ->] Hx. simpl. by rewrite Hx. Qed.

(** Stripping leaves a text alone that neither starts nor ends with white
    space. *)
Lemma strip_id (t : str) x y :
  head t = Some x -> is_space x = false ->
  last t = Some y -> is_space y = false -> strip t = t.
Proof.
  intros Hx Hsx Hy Hsy. unfold strip, rstrip.
  rewrite (lstrip_id _ _ Hx Hsx), (lstrip_id (reverse t) y).
  - apply reverse_involutive.
  - by rewrite head_reverse.
  - done.
Qed.

Section AmountFacts.
Variable fl : flags.
Variable s : str.

Lemma digit_or_comma x :
  atom_accepts fl (ASet [CDigit; CChr 44]) x = true ->
  is_digit x = true \/ x = 44%N.
Proof.
  intros H%accepts_set_low.
  - rewrite !set_has_cons, !orb_true_iff in H. cbn [item_has] in H.
    destruct H as [H|[H%N.eqb_eq|H]]; [by left|by right|done].
  - by repeat constructor.
Qed.

Lemma digit_only x : atom_accepts fl (ASet [CDigit]) x = true -> is_digit x = true.
Proof.
  intros H%accepts_set_low.
  - rewrite !set_has_cons, !orb_true_iff in H. cbn [item_has] in H.
    destruct H as [H|H]; done.
  - repeat constructor.
Qed.

(** Two digits exactly. *)
Lemma sem_two_digits i c j c' :
  sem fl s (rep 2 2 digit) i c j c' ->
  c' = c /\ j = i + 2
  /\ exists d1 d2, slice s i j = [d1; d2]
                   /\ is_digit d1 = true /\ is_digit d2 = true.
Proof.
  intros H. pose proof (sem_bounds _ _ _ _ _ _ _ H) as Hb.
  apply iter_chr in H as (-> & Hij & Hlo & Hhi & HF).
  assert (j = i + 2) as -> by (specialize (Hhi 2 eq_refl); lia).
  split; [done|]. split; [done|].
  assert (length (slice s i (i + 2)) = 2) as Hlen
    by (rewrite slice_length; lia).
  destruct (slice s i (i + 2)) as [|d1 [|d2 [|? ?]]]; try done.
  apply Forall_cons in HF as [H1 HF]. apply Forall_cons in HF as [H2 _].
  exists d1, d2. eauto using digit_only.
Qed.

(** The text of a match of [[\d,]{lo,hi}\.\d{2}] with [lo >= 1]. *)
Lemma sem_decimal g lo hi i c j c' :
  1 <= lo ->
  sem fl s (cat [Rep g lo hi (set [CDigit; CChr 44]); chr 46; rep 2 2 digit])
      i c j c' ->
  c' = c /\ j <= length s /\ decimal_text (slice s i j).
Proof.
  intros Hlo H. pose proof (sem_bounds _ _ _ _ _ _ _ H) as Hb.
  apply sem_cat_cons in H as (m & c1 & Hint & H).
  apply sem_cat_cons in H as (m' & c2 & Hdot & H).
  apply iter_chr in Hint as (-> & Him & Hcnt & _ & HF).
  destruct Hdot as (x & Hx & Hacc & -> & ->).
  apply accepts_chr_low in Hacc as ->; [|lia].
  apply sem_two_digits in H as (-> & -> & d1 & d2 & Hsl & Hd1 & Hd2).
  pose proof (lookup_lt_Some _ _ _ Hx) as Hm.
  split; [done|]. split; [lia|].
  exists (slice s i m), d1, d2.
  split.
  { rewrite (slice_split s i m (S m + 2)) by lia.
    rewrite (slice_cons _ _ _ _ Hx) by lia. by rewrite Hsl. }
  split; [apply slice_nonempty; lia|].
  split; [|done].
  eapply Forall_impl; [done|]. intros y. apply digit_or_comma.
Qed.
End AmountFacts.

(** Every amount pattern captures, as its only group, a decimal text. *)
Lemma amount_pattern_group text p mt :
  p ∈ amount_patterns ->
  re_search IM p text = Some mt ->
  groups p mt = [group mt 1]
  /\ exists g, group mt 1 = Some g /\ decimal_text g.
Proof.
  intros Hp Hs.
  apply search_from_Some in Hs as (Htext & _ & Hsem & _ & _).
  unfold amount_patterns in Hp.
  apply elem_of_cons in Hp as [->|Hp]; [|apply elem_of_cons in Hp as [->|Hp]];
    [| |apply list_elem_of_singleton in Hp as ->];
    (split; [reflexivity|]); unfold group; rewrite Htext.
  - apply sem_cat_cons in Hsem as (i1 & c1 & Hkw & Hsem).
    apply sem_no_group in Hkw as ->; [|done].
    apply sem_cat_cons in Hsem as (i2 & c2 & Hsp & Hsem).
    apply sem_no_group in Hsp as ->; [|done].
    apply sem_cat_cons in Hsem as (i3 & c3 & Hsp & Hsem).
    apply sem_no_group in Hsp as ->; [|done].
    destruct Hsem as (c4 & Hdec & ->).
    apply sem_decimal in Hdec as (-> & _ & Hdec); [|done].
    simpl. eauto.
  - apply sem_cat_cons in Hsem as (i1 & c1 & (c0 & Hdec & ->) & Hsem).
    apply sem_decimal in Hdec as (-> & _ & Hdec); [|done].
    apply sem_no_group in Hsem as ->; [|done].
    simpl. eauto.
  - apply sem_cat_cons in Hsem as (i1 & c1 & (_ & -> & ->) & Hsem).
    apply sem_cat_cons in Hsem as (i2 & c2 & (c0 & Hdec & ->) & (_ & _ & ->)).
    apply sem_decimal in Hdec as (-> & _ & Hdec); [|done].
    simpl. eauto.
Qed.

Lemma remove_char_app c (t1 t2 : str) :
  remove_char c (t1 ++ t2) = remove_char c t1 ++ remove_char c t2.
Proof. unfold remove_char. apply filter_app. Qed.

Lemma decimal_text_strip g : decimal_text g -> strip g = g.
Proof.
  intros (xs & d1 & d2 & -> & Hne & HF & Hd1 & Hd2).
  destruct xs as [|x xs]; [done|].
  apply Forall_cons in HF as [Hx _].
  eapply (strip_id _ x d2); [done| |by rewrite last_app|by apply digit_not_space].
  destruct Hx as [Hx| ->]; [by apply digit_not_space|done].
Qed.

(** What is left of a decimal text once its commas are removed. *)
Lemma decimal_text_no_commas g :
  decimal_text g ->
  exists ds d1 d2,
    remove_char 44 g = ds ++ [46%N; d1; d2]
    /\ Forall (fun x => is_digit x = true) ds
    /\ is_digit d1 = true /\ is_digit d2 = true.
Proof.
  intros (xs & d1 & d2 & -> & _ & HF & Hd1 & Hd2).
  exists (remove_char 44 xs), d1, d2. rewrite remove_char_app.
  split; [|split; [|done]].
  - f_equal. unfold remove_char.
    assert (d1 <> 44%N) by (intros ->; done).
    assert (d2 <> 44%N) by (intros ->; done).
    rewrite !filter_cons_True by done. done.
  - unfold remove_char. apply Forall_forall. intros x Hx.
    apply list_elem_of_filter in Hx as [Hne Hx].
    rewrite Forall_forall in HF. destruct (HF x Hx); done.
Qed.

Lemma parse_amount_decimal text a :
  _parse_amount text = Some a ->
  exists ds d1 d2,
    a = ds ++ [46%N; d1; d2]
    /\ Forall (fun x => is_digit x = true) ds
    /\ is_digit d1 = true /\ is_digit d2 = true.
Proof.
  unfold _parse_amount.
  destruct (find_first_match text amount_patterns) as [v|] eqn:E; [|done].
  destruct (truthy (Some v)); [|done]. intros [= <-].
  apply find_first_match_yields in E as (p & Hp & mt & g & Hs & Hg & ->).
  destruct (amount_pattern_group _ _ _ Hp Hs) as (Hgs & g' & Hg' & Hdec).
  rewrite Hgs in Hg. apply first_nonempty_single in Hg as [Hg _].
  rewrite Hg' in Hg. injection Hg as ->.
  rewrite (decimal_text_strip _ Hdec). by apply decimal_text_no_commas.
Qed.

Section ShapeFacts.
Variable fl : flags.
Variable s : str.

(** A stretch of accepted characters is a match of the starred class. *)
Lemma iter_chr_intro a lo hi cnt i j :
  i <= j <= length s ->
  Forall (fun x => atom_accepts fl a x = true) (slice s i j) ->
  lo <= cnt + (j - i) ->
  (forall h, hi = Some h -> cnt + (j - i) <= h) ->
  forall c, iter (sem fl s (Chr a)) lo hi cnt i c j c.
Proof.
  intros Hij. remember (j - i) as n eqn:Hn. revert cnt i Hij Hn.
  induction n as [|n IH]; intros cnt i Hij Hn HF Hlo Hhi c.
  - assert (j = i) as -> by lia. apply iter_stop. lia.
  - destruct (lookup_lt_is_Some_2 s i) as [x Hx]; [lia|].
    rewrite (slice_cons _ _ _ _ Hx) in HF by lia.
    apply Forall_cons in HF as [Hacc HF].
    apply (iter_more _ _ _ _ _ _ (S i) c).
    + destruct hi as [h|]; [|done]. simpl. apply Nat.ltb_lt.
      specialize (Hhi h eq_refl). lia.
    + by exists x.
    + lia.
    + apply IH; [lia|lia|done|lia|]. intros h Hh. specialize (Hhi h Hh). lia.
Qed.
End ShapeFacts.

(** An amount that [_parse_amount] returns is a run of digits, possibly
    empty, a decimal point and exactly two digits: it holds no separator and
    matches [^\d*\.\d{2}$]. *)
Lemma parse_amount_shape (text a : str) :
  _parse_amount text = Some a ->
  (exists ds d1 d2,
      a = ds ++ [46%N; d1; d2]
      /\ Forall (fun x => is_digit x = true) ds
      /\ is_digit d1 = true /\ is_digit d2 = true)
  /\ ~ (44%N ∈ a)
  /\ is_Some (re_search NOFLAGS amount_shape_loose a).
Proof.
  intros (ds & d1 & d2 & -> & Hds & Hd1 & Hd2)%parse_amount_decimal.
  split; [by exists ds, d1, d2|]. split.
  - intros Hin. apply elem_of_app in Hin as [Hin|Hin].
    + rewrite Forall_forall in Hds. by specialize (Hds _ Hin).
    + repeat (apply elem_of_cons in Hin as [Hin|Hin]; [by subst|]).
      by apply not_elem_of_nil in Hin.
  - set (a := ds ++ [46%N; d1; d2]).
    destruct (re_search NOFLAGS amount_shape_loose a) eqn:E; [done|].
    exfalso. apply search_None_iff in E; [|done]. apply E.
    exists 0, (length a), []. split; [lia|].
    assert (Hlen : length a = length ds + 3) by (unfold a; rewrite length_app; done).
    assert (Hsl : slice a 0 (length ds) = ds).
    { unfold slice, a. rewrite drop_0, Nat.sub_0_r. by rewrite take_app_length. }
    assert (Hdot : a !! length ds = Some 46%N).
    { unfold a. by rewrite lookup_app_r, Nat.sub_diag by lia. }
    assert (Hfrac : slice a (S (length ds)) (length a) = [d1; d2]).
    { unfold slice. rewrite Hlen. unfold a.
      change (ds ++ [46%N; d1; d2]) with (ds ++ [46%N] ++ [d1; d2]).
      rewrite app_assoc.
      rewrite (drop_app_length' _ _ (S (length ds)))
        by (rewrite length_app; simpl; lia).
      by replace (length ds + 3 - S (length ds)) with 2 by lia. }
    unfold amount_shape_loose.
    apply sem_cat_cons. exists 0, []. split; [done|].
    apply sem_cat_cons. exists (length ds), []. split.
    { apply iter_chr_intro; [lia| |lia|done].
      rewrite Hsl. eapply Forall_impl; [done|]. intros x Hx. simpl.
      by rewrite Hx. }
    apply sem_cat_cons. exists (S (length ds)), []. split.
    { exists 46%N. by repeat split. }
    apply sem_cat_cons. exists (length a), []. split.
    { apply iter_chr_intro; [lia| |lia|intros h [= <-]; lia].
      rewrite Hfrac. repeat constructor; simpl; by rewrite ?Hd1, ?Hd2. }
    simpl. split; [|done]. unfold at_eol. by rewrite Nat.eqb_refl.
Qed.

(** C7 (failing input): the first amount pattern accepts a run of commas
    for the integer part.  From the text [Amount ,.00] it captures [,.00],
    and with the commas removed the amount is [.00], which has no digit
    before the point and does not match [^\d+\.\d{2}$]. *)
Theorem parse_amount_no_integer_digit :
  _parse_amount (U "Amount ,.00") = Some (U ".00")
  /\ re_search NOFLAGS amount_shape (U ".00") = None
  /\ find_first_match (U "Amount ,.00") amount_patterns = Some (U ",.00").
Proof. repeat split; vm_compute; reflexivity. Qed.

(** ** No exception leaves the extractors *)

Lemma index_ok {A} (l : list A) (i : nat) :
  i < length l -> exists a, index l (Z.of_nat i) = Ok a /\ l !! i = Some a.
Proof.
  intros Hi. unfold index.
  destruct (Z.of_nat i <? 0)%Z eqn:E; [apply Z.ltb_lt in E; lia|].
  rewrite E, Nat2Z.id.
  destruct (lookup_lt_is_Some_2 l i Hi) as [a Ha]. rewrite Ha. eauto.
Qed.

Lemma index_last_ok {A} (l : list A) :
  l <> [] -> exists a, index l (-1) = Ok a /\ last l = Some a.
Proof.
  intros Hl. unfold index. simpl.
  assert (0 < length l) as Hlen by (destruct l; [done|simpl; lia]).
  destruct (-1 + Z.of_nat (length l) <? 0)%Z eqn:E; [apply Z.ltb_lt in E; lia|].
  replace (Z.to_nat (-1 + Z.of_nat (length l))) with (pred (length l)) by lia.
  rewrite <- last_lookup. destruct (last l) as [a|] eqn:Ha; [eauto|].
  by apply last_None in Ha.
Qed.

Lemma find_date_parts_ok text : exists r, _find_date_parts text = Ok r.
Proof.
  unfold _find_date_parts.
  destruct (re_search I_ month_year_pattern text) as [mt|].
  - destruct (re_findall _ _ _) as [|d ds] eqn:E; [eauto|].
    destruct (index_last_ok (d :: ds)) as (a & -> & _); [done|]. simpl. eauto.
  - destruct (re_search NOFLAGS numeric_date_pattern text); eauto.
Qed.

Lemma find_date_ok now text : exists r, _find_date now text = Ok r.
Proof.
  unfold _find_date. destruct (find_date_parts_ok text) as [[p|] ->]; simpl; [|eauto].
  destruct (_find_date_convert now p); simpl; eauto.
Qed.

(** A match of the name pattern always binds group 1. *)
Lemma name_pattern_group line mt :
  re_match I_ name_pattern line = Some mt -> is_Some (group mt 1).
Proof.
  intros (_ & _ & Hsem & _)%match_Some.
  apply sem_cat_cons in Hsem as (i & c & _ & (c1 & _ & E)).
  unfold group. rewrite E. simpl. eauto.
Qed.

Lemma drop_cons_inv {A} (l : list A) i x rest :
  drop i l = x :: rest ->
  l !! i = Some x /\ drop (S i) l = rest /\ i < length l.
Proof.
  revert i. induction l as [|y l IH]; intros [|i]; simpl; try done.
  - intros [= -> ->]. split; [done|]. split; [by rewrite drop_0|lia].
  - intros H. apply IH in H as (? & ? & ?). split; [done|]. split; [done|lia].
Qed.

Lemma standalone_loop_ok lines kws i rest :
  drop i lines = rest ->
  exists r, standalone_loop lines kws i rest = Ok r.
Proof.
  revert i. induction rest as [|line rest IH]; intros i Hd; simpl; [eauto|].
  apply drop_cons_inv in Hd as (Hline & Hnext & Hi).
  destruct (re_match I_ name_pattern line) as [mt|] eqn:Hm; [|eauto].
  destruct (0 <? i) eqn:Hpos; [|eauto]. apply Nat.ltb_lt in Hpos.
  destruct (index_ok lines (i - 1)) as (prev & Hprev & _); [lia|].
  replace (Z.of_nat i - 1)%Z with (Z.of_nat (i - 1)) by lia.
  rewrite Hprev. simpl.
  destruct (any_keyword_in kws (upper prev)); [|eauto].
  destruct (name_pattern_group _ _ Hm) as [g ->]. simpl. eauto.
Qed.

Lemma find_standalone_name_ok text kws :
  exists r, _find_standalone_name text kws = Ok r.
Proof. apply standalone_loop_ok. apply drop_0. Qed.

Lemma name_confirmed_ok lines i line :
  exists b, name_confirmed lines i line = Ok b.
Proof.
  unfold name_confirmed.
  set (b0 := matched (re_search I_ account_pattern line)).
  assert (exists b1,
             (if negb b0 && (S i <? length lines)
              then do next <- index lines (Z.of_nat i + 1);
                   Ok (matched (re_search I_ account_pattern next))
              else Ok b0) = Ok b1) as [b1 ->].
  { destruct (negb b0 && (S i <? length lines)) eqn:E; [|eauto].
    apply andb_true_iff in E as [_ E%Nat.ltb_lt].
    destruct (index_ok lines (S i)) as (next & Hnext & _); [lia|].
    replace (Z.of_nat i + 1)%Z with (Z.of_nat (S i)) by lia.
    rewrite Hnext. simpl. eauto. }
  simpl.
  destruct (negb b1 && (S (S i) <? length lines)) eqn:E; [|eauto].
  apply andb_true_iff in E as [_ E%Nat.ltb_lt].
  destruct (index_ok lines (S i)) as (next & Hnext & _); [lia|].
  replace (Z.of_nat i + 1)%Z with (Z.of_nat (S i)) by lia.
  rewrite Hnext. simpl.
  destruct (matched (re_search I_ non_name_clues next)); [|eauto].
  destruct (index_ok lines (S (S i))) as (after & Hafter & _); [lia|].
  replace (Z.of_nat i + 2)%Z with (Z.of_nat (S (S i))) by lia.
  rewrite Hafter. simpl. eauto.
Qed.

Lemma name_candidate_ok lines i line :
  exists r, name_candidate lines i line = Ok r.
Proof.
  unfold name_candidate.
  destruct (re_match I_ name_pattern line) as [mt|] eqn:Hm; [|eauto].
  destruct (negb (matched (re_search I_ non_name_clues line))); [|eauto].
  destruct (name_confirmed_ok lines i line) as [b ->]. cbn [res_bind].
  destruct b; [|eauto].
  destruct (name_pattern_group _ _ Hm) as [g ->]. cbn [res_bind as_str].
  destruct (matched (re_fullmatch I_ _ (strip g))); eauto.
Qed.

Lemma names_loop_ok lines i rest found :
  exists r, names_loop lines i rest found = Ok r.
Proof.
  revert i found. induction rest as [|line rest IH]; intros i found; simpl; [eauto|].
  destruct (name_candidate_ok lines i line) as [[name|] ->]; cbn [res_bind]; [|eauto].
  destruct (_ && _); eauto.
Qed.

Lemma find_names_by_account_number_ok text :
  exists r, _find_names_by_account_number text = Ok r.
Proof. apply names_loop_ok. Qed.

Lemma name_by_keywords_ok text kws : exists r, name_by_keywords text kws = Ok r.
Proof.
  unfold name_by_keywords. destruct (truthy (_parse_name text kws)); [eauto|].
  apply find_standalone_name_ok.
Qed.

Lemma fill_by_position_ok text sender recipient :
  exists r, fill_by_position text sender recipient = Ok r.
Proof.
  unfold fill_by_position.
  destruct (find_names_by_account_number_ok text) as [names ->]. cbn [res_bind].
  assert (exists s', (if negb (truthy sender) && (1 <=? length names)
                      then do n <- index names 0; Ok (Some n)
                      else Ok sender) = Ok s') as [s' ->].
  { destruct (negb (truthy sender) && (1 <=? length names)) eqn:E; [|eauto].
    apply andb_true_iff in E as [_ E%Nat.leb_le].
    destruct (index_ok names 0) as (n & Hn & _); [lia|].
    change (Z.of_nat 0) with 0%Z in Hn. rewrite Hn. cbn [res_bind]. eauto. }
  cbn [res_bind].
  destruct (negb (truthy recipient) && (2 <=? length names)) eqn:E; [|cbn [res_bind]; eauto].
  apply andb_true_iff in E as [_ E%Nat.leb_le].
  destruct (index_ok names 1) as (n & Hn & _); [lia|].
  change (Z.of_nat 1) with 1%Z in Hn. rewrite Hn. cbn [res_bind]. eauto.
Qed.

Lemma find_names_ok text : exists r, find_names text = Ok r.
Proof.
  unfold find_names.
  destruct (name_by_keywords_ok text sender_keywords) as [sender ->].
  destruct (name_by_keywords_ok text recipient_keywords) as [recipient ->].
  simpl. destruct (needs_position sender recipient); [|eauto].
  apply fill_by_position_ok.
Qed.

(** The fields of the record built from a non-empty text. *)
Lemma parse_payment_slip_fields now c text' :
  let text := c :: text' in
  exists date names d,
    _find_date now text = Ok date /\ find_names text = Ok names
    /\ parse_payment_slip now (Some text) = Ok d
    /\ d !! "raw_text" = Some (Some text)
    /\ d !! "bank" = Some (find_bank text)
    /\ d !! "amount" = Some (_parse_amount text)
    /\ d !! "date" = Some date
    /\ d !! "time" = Some (_find_time text)
    /\ d !! "sender" = Some (_clean_ocr_name names.1)
    /\ d !! "recipient" = Some (_clean_ocr_name names.2)
    /\ d !! "reference" = Some (find_reference text)
    /\ d !! "error" = None.
Proof.
  intros text. subst text.
  destruct (find_date_ok now (c :: text')) as [date Hdate].
  destruct (find_names_ok (c :: text')) as [names Hnames].
  exists date, names. eexists. split; [done|]. split; [done|].
  unfold parse_payment_slip. cbv zeta. rewrite Hdate, Hnames. cbn [res_bind].
  split; [done|]. repeat split; by simplify_map_eq.
Qed.

(** ** The record *)

(** C1: a non-empty text gives a record without the key [error]; the
    empty text and the absent text give the record that holds the key
    [error] and nothing else. *)
Theorem parse_payment_slip_error_key (now : Z) :
  (forall c text',
      exists d, parse_payment_slip now (Some (c :: text')) = Ok d
                /\ d !! "error" = None)
  /\ parse_payment_slip now (Some [])
     = Ok {[ "error" := Some (U "ไม่มีข้อความให้") ]}
  /\ parse_payment_slip now None
     = Ok {[ "error" := Some (U "ไม่มีข้อความให้") ]}.
Proof.
  split; [|done].
  intros c text'.
  destruct (parse_payment_slip_fields now c text')
    as (date & names & d & _ & _ & Hd & H). exists d. split; [done|].
  do 8 destruct H as [_ H]. done.
Qed.

(** C10: [parse_payment_slip] returns a record for every text, the empty
    and the absent text included: nothing is raised. *)
Theorem parse_payment_slip_total (now : Z) (text : option str) :
  exists d, parse_payment_slip now text = Ok d.
Proof.
  destruct text as [[|c text']|]; [by eexists| |by eexists].
  destruct (parse_payment_slip_fields now c text')
    as (date & names & d & _ & _ & Hd & _). by exists d.
Qed.

Lemma parse_payment_slip_reference now text d :
  parse_payment_slip now text = Ok d ->
  d !! "reference" = None
  \/ exists t, text = Some t /\ d !! "reference" = Some (find_reference t).
Proof.
  destruct text as [[|c text']|].
  - intros [= <-]. by left.
  - destruct (parse_payment_slip_fields now c text')
      as (date & names & d' & _ & _ & Hd & H).
    rewrite Hd. intros [= <-]. right. exists (c :: text'). split; [done|].
    do 7 destruct H as [_ H]. by destruct H.
  - intros [= <-]. by left.
Qed.

(** A reference in the record holds no space character (U+0020). *)
Lemma reference_no_space (now : Z) (text : option str)
    (d : gmap string (option str)) (r : str) :
  parse_payment_slip now text = Ok d ->
  d !! "reference" = Some (Some r) ->
  ~ (32%N ∈ r).
Proof.
  intros [H|(t & -> & H)]%parse_payment_slip_reference; rewrite H; [done|].
  unfold find_reference.
  destruct (truthy (find_first_match t ref_patterns)); [|done].
  destruct (find_first_match t ref_patterns) as [v|]; [|done].
  intros [= <-]. unfold remove_char. intros Hin.
  by apply list_elem_of_filter in Hin as [Hne _].
Qed.

(** C8 (failing input): the reference pattern captures white space of
    every kind and only U+0020 is removed afterwards.  On a slip where the
    line after the reference starts with letters, the capture runs over the
    line break and the reference of the record holds a line feed. *)
Theorem reference_keeps_line_break :
  exists d r,
    parse_payment_slip 2024 (Some (U "Ref: A12345" ++ [10%N] ++ U "Amount 1.00"))
    = Ok d
    /\ d !! "reference" = Some (Some r)
    /\ 10%N ∈ r /\ is_space 10 = true.
Proof.
  destruct (parse_payment_slip_fields 2024 82%N
              (tail (U "Ref: A12345" ++ [10%N] ++ U "Amount 1.00")))
    as (date & names & d & _ & _ & Hd & H).
  exists d, (U "A12345" ++ [10%N] ++ U "Amount1").
  split; [exact Hd|]. split.
  - do 7 destruct H as [_ H]. destruct H as [H _]. rewrite H.
    vm_compute. reflexivity.
  - split; [|reflexivity]. vm_compute. do 6 apply list_elem_of_further.
    apply list_elem_of_here.
Qed.

(** C9 (failing input): on the text [From .] the keyword strategy takes the
    dot for the sender, and the cleaning empties it: the record holds the
    empty string as sender. *)
Theorem sender_empty_string :
  _parse_name (U "From .") sender_keywords = Some (U ".")
  /\ _clean_ocr_name (Some (U ".")) = Some []
  /\ exists d, parse_payment_slip 2024 (Some (U "From .")) = Ok d
               /\ d !! "sender" = Some (Some []).
Proof.
  split; [vm_compute; reflexivity|]. split; [vm_compute; reflexivity|].
  destruct (parse_payment_slip_fields 2024 70%N (tail (U "From .")))
    as (date & names & d & _ & Hn & Hd & H).
  exists d. split; [exact Hd|].
  do 5 destruct H as [_ H]. destruct H as [H _]. rewrite H.
  assert (names = (Some [46%N], None)) as ->.
  { vm_compute in Hn. by injection Hn as <-. }
  vm_compute. reflexivity.
Qed.

(** ** Dates *)

Section DateFacts.
Variable fl : flags.
Variable s : str.

(** A bounded run of digits with at least one digit is not empty. *)
Lemma sem_digits lo hi i c j c' :
  1 <= lo ->
  sem fl s (rep lo hi digit) i c j c' ->
  c' = c /\ i < j <= length s.
Proof.
  intros Hlo H. pose proof (sem_bounds _ _ _ _ _ _ _ H) as Hb.
  apply iter_chr in H as (-> & Hij & Hcnt & _ & _).
  split; [done|]. split; [lia|].
  destruct (decide (i <= length s)); lia.
Qed.

Lemma group_nonempty (mt : pymatch) n a b :
  m_text mt = s -> cap_get n (m_caps mt) = Some (a, b) ->
  a < b <= length s ->
  exists g, group mt n = Some g /\ g <> [].
Proof.
  intros Ht Hc Hab. unfold group. rewrite Hc, Ht. simpl.
  eexists. split; [done|]. apply slice_nonempty; lia.
Qed.
End DateFacts.

Lemma caps_eq (mt : pymatch) c n v :
  m_caps mt = c -> cap_get n c = Some v -> cap_get n (m_caps mt) = Some v.
Proof. by intros ->. Qed.

Lemma numeric_date_groups text mt :
  re_search NOFLAGS numeric_date_pattern text = Some mt ->
  exists d m y,
    group mt 1 = Some d /\ group mt 2 = Some m /\ group mt 3 = Some y
    /\ d <> [] /\ m <> [] /\ y <> [].
Proof.
  intros (Ht & _ & Hsem & _ & _)%search_from_Some.
  apply sem_cat_cons in Hsem as (i1 & c1 & (c0 & H1 & ->) & Hsem).
  apply sem_digits in H1 as (-> & H1); [|lia].
  apply sem_cat_cons in Hsem as (i2 & c2 & (x & Hx & _ & -> & ->) & Hsem).
  apply sem_cat_cons in Hsem as (i3 & c3 & (c0 & H2 & ->) & Hsem).
  apply sem_digits in H2 as (-> & H2); [|lia].
  apply sem_cat_cons in Hsem as (i4 & c4 & (x' & Hx' & _ & -> & ->) & Hsem).
  destruct Hsem as (c0 & H3 & Hc). apply sem_digits in H3 as (-> & H3); [|lia].
  destruct (group_nonempty text mt 1 _ _ Ht (caps_eq mt _ 1 _ Hc eq_refl) H1)
    as (d & Hd & ?).
  destruct (group_nonempty text mt 2 _ _ Ht (caps_eq mt _ 2 _ Hc eq_refl) H2)
    as (m & Hm & ?).
  destruct (group_nonempty text mt 3 _ _ Ht (caps_eq mt _ 3 _ Hc eq_refl) H3)
    as (y & Hy & ?).
  by exists d, m, y.
Qed.

Lemma month_year_groups text mt :
  re_search I_ month_year_pattern text = Some mt ->
  exists m y,
    group mt 1 = Some m /\ group mt 2 = Some y /\ m <> [] /\ y <> [].
Proof.
  intros (Ht & _ & Hsem & _ & _)%search_from_Some.
  apply sem_cat_cons in Hsem as (i1 & c1 & (c0 & H1 & ->) & Hsem).
  pose proof (sem_bounds _ _ _ _ _ _ _ H1) as Hb1.
  apply sem_alt in H1 as (r & Hr & H1); [|done].
  apply list_elem_of_fmap in Hr as (key & -> & Hkey).
  apply sem_lit in H1 as (Hi1 & -> & HF).
  assert (0 < length key) as Hlen.
  { revert Hkey. generalize key. apply Forall_forall.
    unfold parse_thai_months. vm_compute. repeat constructor. }
  apply sem_cat_cons in Hsem as (i2 & c2 & Hsep & Hsem).
  pose proof (sem_bounds _ _ _ _ _ _ _ Hsep) as Hb2.
  apply sem_no_group in Hsep as ->; [|done].
  destruct Hsem as (c0 & H2 & Hc). apply sem_digits in H2 as (-> & H2); [|lia].
  destruct (group_nonempty text mt 1 (m_start mt) i1 Ht (caps_eq mt _ 1 _ Hc eq_refl)) as (m & Hm & ?); [lia|].
  destruct (group_nonempty text mt 2 _ _ Ht (caps_eq mt _ 2 _ Hc eq_refl) H2)
    as (y & Hy & ?).
  by exists m, y.
Qed.

(** Every day candidate that [findall] collects is a non-empty text. *)
Lemma findall_day_nonempty t fuel pos :
  Forall (fun d => d <> []) (findall_loop NOFLAGS day_pattern t fuel pos).
Proof.
  revert pos. induction fuel as [|f IH]; intros pos; simpl; [constructor|].
  destruct (re_search_from NOFLAGS day_pattern t pos) as [mt|] eqn:E; [|constructor].
  constructor; [|apply IH].
  apply search_from_Some in E as (Ht & _ & Hsem & _ & _).
  apply sem_cat_cons in Hsem as (i1 & c1 & (_ & -> & ->) & Hsem).
  apply sem_cat_cons in Hsem as (i2 & c2 & (c0 & H1 & ->) & (_ & _ & Hc)).
  apply sem_digits in H1 as (-> & H1); [|lia].
  destruct (group_nonempty t mt 1 _ _ Ht (caps_eq mt _ 1 _ Hc eq_refl) H1)
    as (d & -> & ?).
  done.
Qed.

(** Once the three components are identified, none of them is empty. *)
Lemma find_date_parts_nonempty text p :
  _find_date_parts text = Ok (Some p) ->
  exists d m y,
    day_str p = Some d /\ month_str p = Some m /\ year_str p = Some y
    /\ d <> [] /\ m <> [] /\ y <> [].
Proof.
  unfold _find_date_parts.
  destruct (re_search I_ month_year_pattern text) as [mt|] eqn:Hmy.
  - destruct (month_year_groups _ _ Hmy) as (m & y & Hm & Hy & ? & ?).
    destruct (re_findall _ _ _) as [|d0 ds] eqn:E; [done|].
    destruct (index_last_ok (d0 :: ds)) as (d & -> & Hlast); [done|].
    cbn [res_bind]. intros [= <-]. simpl.
    exists d, m, y. repeat split; try done.
    pose proof (findall_day_nonempty (take (m_start mt) text)
                  (S (length (take (m_start mt) text))) 0) as HF.
    fold (re_findall NOFLAGS day_pattern (take (m_start mt) text)) in HF.
    rewrite E in HF. rewrite Forall_forall in HF. apply HF.
    apply last_Some in Hlast as (l' & ->). apply elem_of_app. right.
    apply list_elem_of_here.
  - destruct (re_search NOFLAGS numeric_date_pattern text) as [mt|] eqn:Hn; [|done].
    intros [= <-]. simpl. by apply (numeric_date_groups text).
Qed.

Lemma find_date_parts_None text :
  _find_date_parts text = Ok None <->
  (re_search I_ month_year_pattern text = None
   /\ re_search NOFLAGS numeric_date_pattern text = None)
  \/ exists mt, re_search I_ month_year_pattern text = Some mt
                /\ re_findall NOFLAGS day_pattern (take (m_start mt) text) = [].
Proof.
  unfold _find_date_parts.
  destruct (re_search I_ month_year_pattern text) as [mt|] eqn:Hmy.
  - destruct (re_findall _ _ _) as [|d0 ds] eqn:E.
    + split; [|done]. intros _. right. by exists mt.
    + destruct (index_last_ok (d0 :: ds)) as (d & -> & _); [done|].
      cbn [res_bind]. split; [done|].
      intros [[? _]|(mt' & [= <-] & E')]; [done|]. by rewrite E in E'.
  - destruct (re_search NOFLAGS numeric_date_pattern text) as [mt|] eqn:Hn.
    + split; [done|]. intros [[_ ?]|(mt' & ? & _)]; done.
    + split; [|done]. intros _. by left.
Qed.

Lemma find_date_of_parts now text p :
  _find_date_parts text = Ok (Some p) ->
  _find_date now text
  = match _find_date_convert now p with
    | Ok v => Ok (Some v)
    | Raise _ => Ok (_find_date_fallback p)
    end.
Proof.
  intros H. unfold _find_date. rewrite H. cbn [res_bind].
  by destruct (_find_date_convert now p).
Qed.

Lemma find_date_convert_nonempty now p v :
  _find_date_convert now p = Ok v -> v <> [].
Proof.
  unfold _find_date_convert.
  destruct (_find_date_resolve now p) as [[[day year_be] date_obj]|]; [|done].
  cbn [res_bind]. destruct (index full_thai_months _) as [name|]; [|done].
  cbn [res_bind]. intros [= <-] E. apply (f_equal length) in E.
  rewrite !length_app in E. change (length (U " ")) with 1 in E. simpl in E. lia.
Qed.

(** C4 (as amended): once day, month and year are identified,
    [_find_date] returns a non-empty text, and when the conversion raises
    it is the three components joined by spaces; the result is absent when
    the text holds no date pattern, and also when a month and year are found
    with no stand-alone number of one or two digits before them. *)
Theorem find_date_degrades (now : Z) (text : str) :
  (forall p, _find_date_parts text = Ok (Some p) ->
     exists d m y v,
       day_str p = Some d /\ month_str p = Some m /\ year_str p = Some y
       /\ _find_date now text = Ok (Some v) /\ v <> []
       /\ (forall e, _find_date_convert now p = Raise e ->
                     v = d ++ U " " ++ m ++ U " " ++ y))
  /\ (_find_date now text = Ok None <->
      ~ date_pattern_present text
      \/ exists mt, re_search I_ month_year_pattern text = Some mt
                    /\ re_findall NOFLAGS day_pattern (take (m_start mt) text) = []).
Proof.
  split.
  - intros p Hp.
    destruct (find_date_parts_nonempty _ _ Hp) as (d & m & y & Hd & Hm & Hy & ? & ? & ?).
    rewrite (find_date_of_parts now _ _ Hp).
    destruct (_find_date_convert now p) as [v|e] eqn:Hc.
    + exists d, m, y, v. repeat split; try done.
      by eapply find_date_convert_nonempty.
    + exists d, m, y, (d ++ U " " ++ m ++ U " " ++ y).
      unfold _find_date_fallback. rewrite Hd, Hm, Hy.
      destruct d, m, y; done.
  - assert (_find_date now text = Ok None <-> _find_date_parts text = Ok None) as ->.
    { destruct (find_date_parts_ok text) as [[p|] Hp].
      - rewrite (find_date_of_parts now _ _ Hp), Hp.
        destruct (find_date_parts_nonempty _ _ Hp)
          as (d & m & y & Hd & Hm & Hy & ? & ? & ?).
        destruct (_find_date_convert now p); [done|].
        unfold _find_date_fallback. rewrite Hd, Hm, Hy. by destruct d, m, y.
      - unfold _find_date. by rewrite Hp. }
    rewrite find_date_parts_None. unfold date_pattern_present.
    split.
    + intros [[H1 H2]|H]; [left|by right].
      apply search_None_iff in H1; [|done]. apply search_None_iff in H2; [|done].
      by intros [Ho|Ho].
    + intros [H|H]; [left|by right].
      split; (apply search_None_iff; [done|]); intros Ho; apply H; [by left|by right].
Qed.

(** C4 (witness): the thirty-first of February is identified and fails the
    calendar check. *)
Lemma find_date_degrades_witness :
  _find_date 2024 (U "31/02/2024") = Ok (Some (U "31 02 2024")).
Proof.
  destruct (proj1 (find_date_degrades 2024 (U "31/02/2024"))
              {| day_str := Some (U "31"); month_str := Some (U "02");
                 year_str := Some (U "2024") |})
    as (d & m & y & v & Hd & Hm & Hy & Hv & _ & Hlit).
  { vm_compute. reflexivity. }
  rewrite Hv. rewrite (Hlit ValueError) by (vm_compute; reflexivity).
  simpl in Hd, Hm, Hy. injection Hd as <-. injection Hm as <-. injection Hy as <-.
  vm_compute. reflexivity.
Defined.

(** C4 (counterexample): a month and a year with no number before them are
    a date pattern in the text, and the result is absent. *)
Lemma find_date_absent_with_pattern :
  _find_date 2024 (U "มกราคม 2567") = Ok None
  /\ date_pattern_present (U "มกราคม 2567").
Proof.
  split; [vm_compute; reflexivity|]. left.
  destruct (re_search I_ month_year_pattern (U "มกราคม 2567")) as [mt|] eqn:E.
  - by eapply search_Some_occurs.
  - by vm_compute in E.
Qed.

(** C3 (as amended): when the first month and year of a text are
    [มกราคม 2567] and the last stand-alone number of one or two digits
    before them is [15], as in the text [15 มกราคม 2567] itself,
    [_find_date] returns [15 มกราคม 2567]; and for the text [15/01/2024]
    the month-anchored phase finds nothing, the numeric pattern gives day
    15, month 1 and the Gregorian year 2024, and the result is
    [15 มกราคม 2024]. *)
Theorem find_date_canonical (now : Z) :
  (forall text mt,
      re_search I_ month_year_pattern text = Some mt ->
      group mt 1 = Some (U "มกราคม") ->
      group mt 2 = Some (U "2567") ->
      last (re_findall NOFLAGS day_pattern (take (m_start mt) text))
      = Some (U "15") ->
      _find_date now text = Ok (Some (U "15 มกราคม 2567")))
  /\ _find_date now (U "15 มกราคม 2567") = Ok (Some (U "15 มกราคม 2567"))
  /\ re_search I_ month_year_pattern (U "15/01/2024") = None
  /\ _find_date_parts (U "15/01/2024") = Ok (Some parts_15_01_2024)
  /\ _find_date_resolve now parts_15_01_2024
     = Ok (15, 2024, {| dt_year := 2024; dt_month := 1; dt_day := 15 |})%Z
  /\ _find_date now (U "15/01/2024") = Ok (Some (U "15 มกราคม 2024")).
Proof.
  assert (Hconv : _find_date_convert now parts_15_jan_2567
                  = Ok (U "15 มกราคม 2567")) by (vm_compute; reflexivity).
  assert (Hnum : _find_date_parts (U "15/01/2024") = Ok (Some parts_15_01_2024))
    by (vm_compute; reflexivity).
  assert (Hgen : forall text mt,
             re_search I_ month_year_pattern text = Some mt ->
             group mt 1 = Some (U "มกราคม") ->
             group mt 2 = Some (U "2567") ->
             last (re_findall NOFLAGS day_pattern (take (m_start mt) text))
             = Some (U "15") ->
             _find_date now text = Ok (Some (U "15 มกราคม 2567"))).
  { intros text mt Hs Hm Hy Hd.
    assert (Hp : _find_date_parts text = Ok (Some parts_15_jan_2567)).
    { unfold _find_date_parts. rewrite Hs. cbv zeta.
      destruct (re_findall NOFLAGS day_pattern (take (m_start mt) text))
        as [|d ds] eqn:E; [done|].
      destruct (index_last_ok (d :: ds)) as (x & -> & Hx); [done|].
      rewrite Hd in Hx. injection Hx as <-. by rewrite Hm, Hy. }
    by rewrite (find_date_of_parts now _ _ Hp), Hconv. }
  split; [exact Hgen|]. split; [|split; [|split; [|split]]].
  - destruct (re_search I_ month_year_pattern (U "15 มกราคม 2567")) as [mt|] eqn:E;
      [|by vm_compute in E].
    apply (Hgen _ mt E); vm_compute in E; injection E as <-; vm_compute; reflexivity.
  - vm_compute. reflexivity.
  - exact Hnum.
  - vm_compute. reflexivity.
  - rewrite (find_date_of_parts now _ _ Hnum). vm_compute. reflexivity.
Qed.

(** C3 (witness): the date between two other lines of a slip. *)
Lemma find_date_canonical_witness :
  _find_date 2024 (U "Transfer 1" ++ nl ++ U "15 มกราคม 2567 - 14:30 น.")
  = Ok (Some (U "15 มกราคม 2567")).
Proof.
  destruct (re_search I_ month_year_pattern
              (U "Transfer 1" ++ nl ++ U "15 มกราคม 2567 - 14:30 น."))
    as [mt|] eqn:E; [|by vm_compute in E].
  apply (proj1 (find_date_canonical 2024) _ mt E);
    vm_compute in E; injection E as <-; vm_compute; reflexivity.
Defined.

(** C3 (counterexample): with a letter right before the day, the text
    holds [15 มกราคม 2567] and no earlier month and year, and the result is
    absent: [15] is not a stand-alone number there. *)
Lemma find_date_day_glued :
  exists mt,
    re_search I_ month_year_pattern (U "รายการ" ++ U "15 มกราคม 2567") = Some mt
    /\ m_start mt = length (U "รายการ") + 3
    /\ _find_date 2024 (U "รายการ" ++ U "15 มกราคม 2567") = Ok None.
Proof.
  eexists. split; [vm_compute; reflexivity|]. split; vm_compute; reflexivity.
Qed.

(** ** Names by position *)

Lemma keep_first_NoDup seen l :
  NoDup seen -> NoDup (seen ++ keep_first seen l).
Proof.
  revert seen. induction l as [|x l IH]; intros seen Hs; simpl.
  - by rewrite app_nil_r.
  - destruct (bool_decide (x ∈ seen)) eqn:E; [by apply IH|].
    apply bool_decide_eq_false in E.
    replace (seen ++ x :: keep_first (seen ++ [x]) l)
      with ((seen ++ [x]) ++ keep_first (seen ++ [x]) l)
      by (by rewrite <- app_assoc).
    apply IH. apply NoDup_app. split; [done|]. split.
    + intros y Hy ->%list_elem_of_singleton. done.
    + apply NoDup_singleton.
Qed.

(** The loop with its growing list is the list of candidates longer than
    two characters, with the first occurrence of each kept. *)
Lemma names_loop_keep_first lines i rest found cands :
  name_candidates lines i rest = Ok cands ->
  names_loop lines i rest found
  = Ok (found ++ keep_first found (filter (fun n => 2 < length n) cands)).
Proof.
  revert i found cands. induction rest as [|line rest IH]; intros i found cands; simpl.
  - intros [= <-]. by rewrite app_nil_r.
  - destruct (name_candidate lines i line) as [cand|]; [|done]. cbn [res_bind].
    destruct (name_candidates lines (S i) rest) as [more|] eqn:Hm; [|done].
    cbn [res_bind]. intros [= <-].
    destruct cand as [name|]; [|by apply IH].
    destruct (decide (2 < length name)) as [Hlen|Hlen].
    + rewrite filter_cons_True by done. simpl.
      assert ((2 <? length name) = true) as -> by (by apply Nat.ltb_lt).
      destruct (bool_decide (name ∈ found)); simpl; [by apply IH|].
      rewrite (IH _ _ _ Hm). by rewrite <- app_assoc.
    + rewrite filter_cons_False by done.
      assert ((2 <? length name) = false) as -> by (by apply Nat.ltb_ge; lia).
      simpl. by apply IH.
Qed.

Lemma name_candidates_ok lines i rest :
  exists r, name_candidates lines i rest = Ok r.
Proof.
  revert i. induction rest as [|line rest IH]; intros i; simpl; [eauto|].
  destruct (name_candidate_ok lines i line) as [c ->].
  destruct (IH (S i)) as [more ->]. cbn [res_bind]. eauto.
Qed.

Lemma fill_by_position_eq text names sender recipient :
  _find_names_by_account_number text = Ok names ->
  fill_by_position text sender recipient
  = Ok (if truthy sender then sender else from_option Some sender (names !! 0),
        if truthy recipient then recipient
        else from_option Some recipient (names !! 1)).
Proof.
  intros Hn. unfold fill_by_position. rewrite Hn. cbn [res_bind].
  assert ((if negb (truthy sender) && (1 <=? length names)
           then do n <- index names 0; Ok (Some n)
           else Ok sender)
          = Ok (if truthy sender then sender
                else from_option Some sender (names !! 0))) as ->.
  { destruct (truthy sender); [done|]. cbn [negb andb].
    destruct (1 <=? length names) eqn:E.
    - apply Nat.leb_le in E. destruct (index_ok names 0) as (n & Hi & Hl); [lia|].
      change (Z.of_nat 0) with 0%Z in Hi. by rewrite Hi, Hl.
    - apply Nat.leb_gt in E. rewrite lookup_ge_None_2 by lia. done. }
  cbn [res_bind].
  assert ((if negb (truthy recipient) && (2 <=? length names)
           then do n <- index names 1; Ok (Some n)
           else Ok recipient)
          = Ok (if truthy recipient then recipient
                else from_option Some recipient (names !! 1))) as ->.
  { destruct (truthy recipient); [done|]. cbn [negb andb].
    destruct (2 <=? length names) eqn:E.
    - apply Nat.leb_le in E. destruct (index_ok names 1) as (n & Hi & Hl); [lia|].
      change (Z.of_nat 1) with 1%Z in Hi. by rewrite Hi, Hl.
    - apply Nat.leb_gt in E. rewrite lookup_ge_None_2 by lia. done. }
  done.
Qed.

(** C6 (as amended): the positional strategy runs when at least one of
    sender and recipient is unresolved after the keyword and stand-alone
    strategies; its names are the candidates of the lines in the order of
    the lines, each kept once; the first fills the sender and the second the
    recipient, and only a role that was unresolved is filled. *)
Theorem positional_names (text : str) :
  exists sender recipient cands names,
    name_by_keywords text sender_keywords = Ok sender
    /\ name_by_keywords text recipient_keywords = Ok recipient
    /\ name_candidates (stripped_lines text) 0 (stripped_lines text) = Ok cands
    /\ _find_names_by_account_number text = Ok names
    /\ names = keep_first [] (filter (fun n => 2 < length n) cands)
    /\ NoDup names
    /\ (needs_position sender recipient = true
        <-> truthy sender = false \/ truthy recipient = false)
    /\ find_names text
       = Ok (if needs_position sender recipient
             then (if truthy sender then sender
                   else from_option Some sender (names !! 0),
                   if truthy recipient then recipient
                   else from_option Some recipient (names !! 1))
             else (sender, recipient)).
Proof.
  destruct (name_by_keywords_ok text sender_keywords) as [sender Hs].
  destruct (name_by_keywords_ok text recipient_keywords) as [recipient Hr].
  destruct (name_candidates_ok (stripped_lines text) 0 (stripped_lines text))
    as [cands Hc].
  pose proof (names_loop_keep_first _ _ _ [] _ Hc) as Hn. simpl in Hn.
  exists sender, recipient, cands, (keep_first [] (filter (fun n => 2 < length n) cands)).
  split; [done|]. split; [done|]. split; [done|]. split; [done|].
  split; [done|]. split.
  { apply (keep_first_NoDup [] _), NoDup_nil_2. }
  split.
  { unfold needs_position. rewrite orb_true_iff, !negb_true_iff. done. }
  unfold find_names. rewrite Hs, Hr. cbn [res_bind].
  destruct (needs_position sender recipient); [|done].
  by apply fill_by_position_eq.
Qed.

(** C6 (counterexample): the sender is resolved by its keyword, the
    recipient is not, and the positional strategy runs all the same and
    gives its second candidate to the recipient. *)
Lemma positional_with_sender_resolved :
  name_by_keywords slip_sender_only sender_keywords = Ok (Some (U "Bob"))
  /\ name_by_keywords slip_sender_only recipient_keywords = Ok None
  /\ needs_position (Some (U "Bob")) None = true
  /\ _find_names_by_account_number slip_sender_only
     = Ok [U "From Bob"; U "Ann"; U "Joe"]
  /\ find_names slip_sender_only = Ok (Some (U "Bob"), Some (U "Ann")).
Proof. repeat split; vm_compute; reflexivity. Qed.

(** ** The bank resolver *)

Lemma contains_spec (needle t : str) :
  contains needle t = true
  <-> exists i, i <= length t /\ take (length needle) (drop i t) = needle.
Proof.
  induction t as [|x t IH]; simpl.
  - rewrite orb_false_r, bool_decide_eq_true. split.
    + intros H. exists 0. by split.
    + intros (i & _ & H). by rewrite drop_nil in H.
  - rewrite orb_true_iff, bool_decide_eq_true, IH. split.
    + intros [H|(i & Hi & H)].
      * exists 0. split; [lia|done].
      * exists (S i). split; [lia|done].
    + intros ([|i] & Hi & H); [by left|]. right. exists i. split; [lia|done].
Qed.

Lemma plain_ahead_lit t : plain_ahead (lit t) = true.
Proof.
  unfold lit. induction t as [|p t IH]; [done|].
  rewrite fmap_cons. destruct t as [|q t]; [done|].
  change (cat (chr p :: (chr <$> (q :: t))))
    with (Cat (chr p) (cat (chr <$> (q :: t)))).
  cbn [plain_ahead]. by rewrite IH.
Qed.

Lemma plain_ahead_alt_lits kws : plain_ahead (alt (lit <$> kws)) = true.
Proof.
  induction kws as [|kw kws IH]; [done|].
  rewrite fmap_cons. destruct kws as [|kw' kws]; [apply plain_ahead_lit|].
  change (alt (lit kw :: (lit <$> (kw' :: kws))))
    with (Alt (lit kw) (alt (lit <$> (kw' :: kws)))).
  cbn [plain_ahead]. by rewrite plain_ahead_lit, IH.
Qed.

(** Without flags, a literal matches its own text only. *)
Lemma sem_lit_exact s t i c j c' :
  sem NOFLAGS s (lit t) i c j c'
  <-> j = i + length t /\ c' = c /\ slice s i j = t.
Proof.
  rewrite sem_lit. split; intros (-> & -> & H); (split; [done|]); (split; [done|]).
  - revert H. generalize (slice s i (i + length t)). clear.
    induction t as [|p t IH]; intros l H.
    + by apply Forall2_nil_inv_l in H.
    + apply Forall2_cons_inv_l in H as (x & l' & Hx%N.eqb_eq & H & ->).
      by rewrite Hx, (IH _ H).
  - rewrite H. clear. induction t as [|p t IH]; constructor; [|done].
    simpl. apply N.eqb_refl.
Qed.

(** The search for the escaped keywords of a bank succeeds exactly when
    one of the keywords occurs in the text. *)
Lemma search_keywords kws w :
  kws <> [] ->
  matched (re_search NOFLAGS (alt (lit <$> kws)) w) = true
  <-> exists kw, kw ∈ kws /\ contains kw w = true.
Proof.
  intros Hne. assert (lit <$> kws <> []) as Hne' by (by destruct kws).
  split.
  - destruct (re_search _ _ _) as [mt|] eqn:E; [|done]. intros _.
    apply search_from_Some in E as (_ & _ & Hsem & Hb & _).
    apply sem_alt in Hsem as (r & Hr & Hsem); [|done].
    apply list_elem_of_fmap in Hr as (kw & -> & Hkw).
    apply sem_lit_exact in Hsem as (Hj & _ & Hsl).
    exists kw. split; [done|]. apply contains_spec.
    exists (m_start mt). split; [lia|].
    unfold slice in Hsl. rewrite Hj in Hsl.
    by replace (m_start mt + length kw - m_start mt) with (length kw) in Hsl by lia.
  - intros (kw & Hkw & (i & Hi & Ht)%contains_spec).
    destruct (re_search _ _ _) as [mt|] eqn:E; [done|]. exfalso.
    apply search_None_iff in E; [|apply plain_ahead_alt_lits]. apply E.
    exists i, (i + length kw), []. split; [done|].
    apply sem_alt; [done|]. exists (lit kw).
    split; [by apply list_elem_of_fmap_2|].
    apply sem_lit_exact. split; [done|]. split; [done|].
    unfold slice. by replace (i + length kw - i) with (length kw) by lia.
Qed.

(** What one loop over the bank table returns: the first bank, in the order
    of the table, one of whose keywords occurs in the text searched. *)
Lemma bank_loop_first table w :
  Forall (fun e : str * list str => e.2 <> []) table ->
  match bank_loop table w with
  | Some b => first_bank_with_keyword table w b
  | None => Forall (fun e : str * list str =>
                      forall kw, kw ∈ e.2 -> contains kw w = false) table
  end.
Proof.
  induction 1 as [|[name kws] table Hkws _ IH]; simpl; [constructor|].
  simpl in Hkws.
  destruct (matched (re_search NOFLAGS (alt (lit <$> kws)) w)) eqn:E.
  - apply search_keywords in E; [|done].
    exists [], kws, table. split; [done|]. split; [done|constructor].
  - assert (Hno : forall kw, kw ∈ kws -> contains kw w = false).
    { intros kw Hkw. apply not_true_is_false. intros Hc.
      apply not_true_iff_false in E. apply E, search_keywords; [done|]. eauto. }
    destruct (bank_loop table w) as [b|].
    + destruct IH as (t1 & kws' & t2 & -> & Hex & Hall).
      exists ((name, kws) :: t1), kws', t2. split; [done|]. split; [done|].
      by constructor.
    + by constructor.
Qed.

(** The resolver of the code, in the words of its two loops: the window is
    the upper-cased text cut at the offset that the first marker has in the
    text itself. *)
Lemma find_bank_first text :
  match find_bank text with
  | Some b =>
      first_bank_with_keyword bank_keywords (sender_section_text text) b
      \/ (Forall (fun e : str * list str =>
                    forall kw, kw ∈ e.2 ->
                               contains kw (sender_section_text text) = false)
                 bank_keywords
          /\ first_bank_with_keyword bank_keywords (upper text) b)
  | None =>
      Forall (fun e : str * list str =>
                forall kw, kw ∈ e.2 -> contains kw (upper text) = false)
             bank_keywords
  end.
Proof.
  assert (Htab : Forall (fun e : str * list str => e.2 <> []) bank_keywords)
    by (unfold bank_keywords; repeat constructor; done).
  assert (Hnames : Forall (fun e : str * list str => e.1 <> []) bank_keywords)
    by (unfold bank_keywords; repeat constructor; done).
  unfold find_bank.
  pose proof (bank_loop_first bank_keywords (sender_section_text text) Htab) as H1.
  pose proof (bank_loop_first bank_keywords (upper text) Htab) as H2.
  destruct (bank_loop bank_keywords (sender_section_text text)) as [[|x b]|] eqn:E1.
  - exfalso. destruct H1 as (t1 & kws & t2 & Ht & _).
    rewrite Forall_forall in Hnames. apply (Hnames ([], kws)); [|done].
    rewrite Ht. apply elem_of_app. right. apply list_elem_of_here.
  - cbn [truthy negb]. by left.
  - cbn [truthy negb].
    destruct (bank_loop bank_keywords (upper text)); [by right|exact H2].
Qed.

(** On a usual slip the code and the wording of the specification find
    the same bank: the sender's bank, named before the marker. *)
Example find_bank_agrees_on_slip :
  find_bank (U "K+ โอนเงินสำเร็จ" ++ nl ++ U "นาย ก ธ.กสิกรไทย" ++ nl
             ++ U "ไปยัง นาง ข ธ.ไทยพาณิชย์ SCB")
  = Some (U "กสิกรไทย")
  /\ spec_bank_resolver (U "K+ โอนเงินสำเร็จ" ++ nl ++ U "นาย ก ธ.กสิกรไทย" ++ nl
                         ++ U "ไปยัง นาง ข ธ.ไทยพาณิชย์ SCB")
     = Some (U "กสิกรไทย").
Proof. split; vm_compute; reflexivity. Qed.

(** C5 (failing input): in [ßKTBto SCB] the marker [to] starts at offset 4
    of the text; upper-casing turns the sharp s into two letters, so cutting
    the upper-cased text at offset 4 leaves [SSKT], not the upper-cased text
    before the marker, [SSKTB].  The keyword [KTB] before the marker is
    missed, the search falls back to the whole text, and the bank found is
    the one after the marker. *)
Theorem bank_window_misaligned :
  (m_start <$> re_search I_ (alt (lit <$> recipient_markers)) (U "ßKTBto SCB"))
  = Some 4
  /\ sender_section_text (U "ßKTBto SCB") = U "SSKT"
  /\ upper (take 4 (U "ßKTBto SCB")) = U "SSKTB"
  /\ find_bank (U "ßKTBto SCB") = Some (U "ไทยพาณิชย์")
  /\ spec_bank_resolver (U "ßKTBto SCB") = Some (U "กรุงไทย").
Proof. repeat split; vm_compute; reflexivity. Qed.

(** ** Fields that are never the empty string *)

Lemma lstrip_nonempty (t : str) x :
  x ∈ t -> is_space x = false -> lstrip t <> [].
Proof.
  induction t as [|y t IH]; intros Hx Hs; [by apply not_elem_of_nil in Hx|].
  simpl. destruct (is_space y) eqn:Hy; [|done].
  apply elem_of_cons in Hx as [->|Hx]; [congruence|]. by apply IH.
Qed.

Lemma lstrip_suffix (t : str) : exists pre, t = pre ++ lstrip t.
Proof.
  induction t as [|y t [pre IH]]; [by exists []|].
  simpl. destruct (is_space y); [|by exists []].
  exists (y :: pre). simpl. by f_equal.
Qed.

Lemma lstrip_head (t : str) x : head (lstrip t) = Some x -> is_space x = false.
Proof.
  induction t as [|y t IH]; [done|]. simpl.
  destruct (is_space y) eqn:Hy; [done|]. by intros [= <-].
Qed.

(** A text with a character that is not white space does not strip to the
    empty string, and what is left starts with such a character. *)
Lemma strip_nonempty (t : str) x :
  x ∈ t -> is_space x = false -> strip t <> [].
Proof.
  intros Hx Hs. unfold strip, rstrip.
  assert (Hl : lstrip t <> []) by (by eapply lstrip_nonempty).
  destruct (lstrip_suffix t) as [pre Hpre].
  assert (exists y, y ∈ lstrip t /\ is_space y = false) as (y & Hy & Hsy).
  { destruct (lstrip t) as [|y l] eqn:E; [done|]. exists y.
    split; [apply list_elem_of_here|]. apply (lstrip_head t). by rewrite E. }
  intros E. apply (f_equal reverse) in E. rewrite reverse_involutive in E.
  simpl in E. revert E. apply (lstrip_nonempty _ y); [|done].
  by apply elem_of_reverse.
Qed.

Lemma strip_head (t : str) x : head (strip t) = Some x -> is_space x = false.
Proof.
  unfold strip, rstrip. intros Hx.
  destruct (lstrip_suffix (reverse (lstrip t))) as [pre Hpre].
  set (u := lstrip (reverse (lstrip t))) in *.
  assert (Hin : x ∈ lstrip t).
  { apply elem_of_reverse. rewrite Hpre. apply elem_of_app. right.
    apply elem_of_reverse. destruct (reverse u) as [|z l]; [done|].
    injection Hx as ->. apply list_elem_of_here. }
  (* the first character of the result is the first character of [lstrip t] *)
  assert (Hrev : reverse (lstrip t) = pre ++ u) by done.
  apply (f_equal reverse) in Hrev. rewrite reverse_involutive, reverse_app in Hrev.
  apply (lstrip_head t). rewrite Hrev.
  destruct (reverse u) as [|z l]; [done|]. by injection Hx as ->.
Qed.

Lemma find_bank_nonempty text b : find_bank text = Some b -> b <> [].
Proof.
  intros Hb. pose proof (find_bank_first text) as H. rewrite Hb in H.
  assert (Hnames : Forall (fun e : str * list str => e.1 <> []) bank_keywords)
    by (unfold bank_keywords; repeat constructor; done).
  assert (Hin : forall w, first_bank_with_keyword bank_keywords w b -> b <> []).
  { intros w (t1 & kws & t2 & Ht & _). rewrite Forall_forall in Hnames.
    apply (Hnames (b, kws)). rewrite Ht. apply elem_of_app. right.
    apply list_elem_of_here. }
  destruct H as [H|[_ H]]; eauto.
Qed.

Lemma parse_amount_nonempty text a : _parse_amount text = Some a -> a <> [].
Proof.
  intros (ds & d1 & d2 & -> & _)%parse_amount_decimal. by destruct ds.
Qed.

Lemma find_date_nonempty now text v : _find_date now text = Ok (Some v) -> v <> [].
Proof.
  destruct (find_date_parts_ok text) as [[p|] Hp].
  - rewrite (find_date_of_parts now _ _ Hp).
    destruct (_find_date_convert now p) as [w|e] eqn:Hc.
    + intros [= <-]. by eapply find_date_convert_nonempty.
    + unfold _find_date_fallback. destruct (_ && _); [|done].
      intros [= <-] E. apply (f_equal length) in E.
      rewrite !length_app in E. change (length (U " ")) with 1 in E. simpl in E. lia.
  - unfold _find_date. by rewrite Hp.
Qed.

Lemma find_reference_nonempty text r : find_reference text = Some r -> r <> [].
Proof.
  unfold find_reference.
  destruct (find_first_match text ref_patterns) as [v|] eqn:E; [|done].
  destruct v as [|x v]; [done|]. simpl. intros [= <-].
  apply find_first_match_yields in E as (p & _ & mt & g & _ & _ & Hv).
  assert (is_space x = false) as Hx by (apply (strip_head g); by rewrite <- Hv).
  unfold remove_char. rewrite filter_cons_True; [done|]. by intros ->.
Qed.

Section TimeFacts.
Variable fl : flags.
Variable s : str.

(** The text [\d{lo,2}:\d{2}...] of a time starts with a digit. *)
Lemma sem_time_start lo rest i c j c' :
1 <= lo ->
sem fl s (cat (rep lo 2 digit :: rest)) i c j c' ->
i < j <= length s /\ exists x, s !! i = Some x /\ is_digit x = true.
Proof.
intros Hlo H. pose proof (sem_bounds _ _ _ _ _ _ _ H) as Hb.
apply sem_cat_cons in H as (m & c1 & Hd & Hrest).
pose proof (sem_bounds _ _ _ _ _ _ _ Hrest) as Hb'.
pose proof Hd as Hd'. apply sem_digits in Hd' as (_ & Him); [|done].
apply iter_chr in Hd as (_ & _ & _ & _ & HF).
destruct (lookup_lt_is_Some_2 s i) as [x Hx]; [lia|].
rewrite (slice_cons _ _ _ _ Hx) in HF by lia.
apply Forall_cons in HF as [Hacc _].
split; [lia|]. exists x. split; [done|]. by eapply digit_only.
Qed.
End TimeFacts.

Lemma time_group_digit (fl : flags) (mt : pymatch) a b x :
  cap_get 1 (m_caps mt) = Some (a, b) ->
  a < b <= length (m_text mt) -> m_text mt !! a = Some x -> is_digit x = true ->
  exists g, group mt 1 = Some g /\ head g = Some x.
Proof.
  intros Hc Hab Hx Hd. unfold group. rewrite Hc. simpl.
  eexists. split; [done|]. by rewrite (slice_cons _ _ _ _ Hx) by lia.
Qed.

(** Every time pattern captures, as its only group, a text that starts
    with a digit. *)
Lemma time_pattern_group text p mt :
  p ∈ time_patterns ->
  re_search IM p text = Some mt ->
  groups p mt = [group mt 1]
  /\ exists g x, group mt 1 = Some g /\ head g = Some x /\ is_digit x = true.
Proof.
  intros Hp Hs.
  apply search_from_Some in Hs as (Htext & _ & Hsem & _ & _).
  unfold time_patterns in Hp.
  apply elem_of_cons in Hp as [->|Hp]; [|apply elem_of_cons in Hp as [->|Hp]];
    [| |apply list_elem_of_singleton in Hp as ->];
    (split; [reflexivity|]).
  - apply sem_cat_cons in Hsem as (i1 & c1 & Hkw & Hsem).
    apply sem_no_group in Hkw as ->; [|done].
    apply sem_cat_cons in Hsem as (i2 & c2 & Hsp & Hsem).
    apply sem_no_group in Hsp as ->; [|done].
    apply sem_cat_cons in Hsem as (i3 & c3 & Hsp & Hsem).
    apply sem_no_group in Hsp as ->; [|done].
    destruct Hsem as (c4 & Htime & Hc).
    apply sem_time_start in Htime as (Hab & x & Hx & Hd); [|lia].
    rewrite <- Htext in Hab, Hx.
    destruct (time_group_digit IM mt _ _ x (caps_eq mt _ 1 _ Hc eq_refl) Hab Hx Hd)
      as (g & Hg & Hh). by exists g, x.
  - apply sem_cat_cons in Hsem as (i1 & c1 & (_ & -> & ->) & Hsem).
    apply sem_cat_cons in Hsem as (i2 & c2 & (c0 & Htime & ->) & (_ & _ & Hc)).
    apply sem_time_start in Htime as (Hab & x & Hx & Hd); [|lia].
    rewrite <- Htext in Hab, Hx.
    destruct (time_group_digit IM mt _ _ x (caps_eq mt _ 1 _ Hc eq_refl)
                Hab Hx Hd) as (g & Hg & Hh). by exists g, x.
  - apply sem_cat_cons in Hsem as (i1 & c1 & (_ & -> & ->) & Hsem).
    apply sem_cat_cons in Hsem as (i2 & c2 & (c0 & Htime & ->) & (_ & _ & Hc)).
    apply sem_time_start in Htime as (Hab & x & Hx & Hd); [|lia].
    rewrite <- Htext in Hab, Hx.
    destruct (time_group_digit IM mt _ _ x (caps_eq mt _ 1 _ Hc eq_refl)
                Hab Hx Hd) as (g & Hg & Hh). by exists g, x.
Qed.

Lemma find_time_nonempty text v : _find_time text = Some v -> v <> [].
Proof.
  unfold _find_time.
  destruct (re_search I_ time_on_date_line_pattern text) as [mt|] eqn:E.
  - apply search_from_Some in E as (Htext & _ & Hsem & _ & _).
    do 6 (apply sem_cat_cons in Hsem as (? & ? & Hpre & Hsem);
          apply sem_no_group in Hpre as ->; [|done]).
    destruct Hsem as (c4 & Htime & Hc).
    apply sem_time_start in Htime as (Hab & y & Hy & Hd); [|lia].
    rewrite <- Htext in Hab, Hy.
    destruct (time_group_digit I_ mt _ _ y (caps_eq mt _ 1 _ Hc eq_refl) Hab Hy Hd)
      as (g & Hg & Hh).
    rewrite Hg. intros [= <-]. by destruct g.
  - intros (p & Hp & mt & g & Hs & Hg & ->)%find_first_match_yields.
    destruct (time_pattern_group _ _ _ Hp Hs) as (Hgs & g' & x & Hg' & Hh & Hd).
    rewrite Hgs in Hg. apply first_nonempty_single in Hg as [Hg _].
    rewrite Hg' in Hg. injection Hg as ->.
    apply (strip_nonempty g x); [|by apply digit_not_space].
    destruct g as [|y g]; [done|]. injection Hh as ->. apply list_elem_of_here.
Qed.

(** In the record of any text, the bank, the amount, the date, the time and
    the reference are never the empty string. *)
Lemma fields_nonempty now text d k v :
  parse_payment_slip now text = Ok d ->
  k ∈ ["bank"; "amount"; "date"; "time"; "reference"] ->
  d !! k = Some (Some v) -> v <> [].
Proof.
  destruct text as [[|c text']|].
  - intros [= <-] _. simpl. intros Hk. apply lookup_singleton_Some in Hk as [_ Hk].
    injection Hk as <-. done.
  - destruct (parse_payment_slip_fields now c text')
      as (date & names & d' & Hdate & _ & Hd & _ & Hb & Ha & Hdt & Ht & _ & _ & Hr & _).
    rewrite Hd. intros [= <-] Hk.
    repeat (apply elem_of_cons in Hk as [->|Hk]);
      [| | | | |by apply not_elem_of_nil in Hk].
    + rewrite Hb. intros [= H]. by eapply find_bank_nonempty.
    + rewrite Ha. intros [= H]. by eapply parse_amount_nonempty.
    + rewrite Hdt. intros [= ->]. by eapply find_date_nonempty.
    + rewrite Ht. intros [= H]. by eapply find_time_nonempty.
    + rewrite Hr. intros [= H]. by eapply find_reference_nonempty.
  - intros [= <-] _. simpl. intros Hk. apply lookup_singleton_Some in Hk as [_ Hk].
    injection Hk as <-. done.
Qed.

(** ** The bank resolver and the wording of the specification

    Where upper-casing keeps every character single, the code finds the
    bank that the wording of the specification designates. *)

Lemma contains_app (needle t : str) :
  contains needle t = true <-> exists pre post, t = pre ++ needle ++ post.
Proof.
  rewrite contains_spec. split.
  - intros (i & Hi & H). exists (take i t), (drop (length needle) (drop i t)).
    rewrite <- H at 1. by rewrite take_drop, take_drop.
  - intros (pre & post & ->). exists (length pre). split.
    + rewrite length_app. lia.
    + by rewrite drop_app_length, take_app_length.
Qed.

Lemma contains_trans (a b c : str) :
  contains a b = true -> contains b c = true -> contains a c = true.
Proof.
  rewrite !contains_app. intros (p1 & q1 & ->) (p2 & q2 & ->).
  exists (p2 ++ p1), (q1 ++ q2). by rewrite <- !app_assoc.
Qed.

Lemma upper_single (t : str) :
  Forall (fun x => x <> 223%N) t -> upper t = upper1 <$> t.
Proof.
  induction 1 as [|x t Hx _ IH]; [done|].
  unfold upper in *. rewrite bind_cons, IH, fmap_cons. unfold upper_char.
  apply N.eqb_neq in Hx. by rewrite Hx.
Qed.

Lemma lower1_spec x :
  ((65 <= x <= 90 \/ (192 <= x <= 222 /\ x <> 215)) /\ lower1 x = x + 32)%N
  \/ (~ (65 <= x <= 90)%N /\ ~ (192 <= x <= 222 /\ x <> 215)%N /\ lower1 x = x).
Proof.
  unfold lower1.
  destruct (in_range 65 90 x) eqn:E1.
  { apply in_range_spec in E1. left. split; [by left|done]. }
  assert (~ (65 <= x <= 90)%N) as H1.
  { intros H%in_range_spec. congruence. }
  destruct (in_range 192 222 x) eqn:E2; simpl.
  - apply in_range_spec in E2. destruct (x =? 215)%N eqn:E3; simpl.
    + apply N.eqb_eq in E3. right. split; [done|]. split; [lia|done].
    + apply N.eqb_neq in E3. left. split; [by right|done].
  - right. split; [done|]. split; [|done].
    intros [H%in_range_spec _]. congruence.
Qed.

Lemma upper1_spec x :
  ((97 <= x <= 122 \/ (224 <= x <= 254 /\ x <> 247)) /\ upper1 x = x - 32)%N
  \/ (x = 255 /\ upper1 x = 376)%N
  \/ (x = 181 /\ upper1 x = 924)%N
  \/ (~ (97 <= x <= 122)%N /\ ~ (224 <= x <= 254 /\ x <> 247)%N
      /\ x <> 255%N /\ x <> 181%N /\ upper1 x = x).
Proof.
  unfold upper1.
  destruct (in_range 97 122 x) eqn:E1.
  { apply in_range_spec in E1. left. split; [by left|done]. }
  assert (~ (97 <= x <= 122)%N) as H1.
  { intros H%in_range_spec. congruence. }
  destruct (in_range 224 254 x) eqn:E2; simpl.
  - apply in_range_spec in E2. destruct (x =? 247)%N eqn:E3; simpl.
    + apply N.eqb_eq in E3. subst x. right. right. right. repeat split; lia.
    + apply N.eqb_neq in E3. left. split; [by right|done].
  - assert (~ (224 <= x <= 254 /\ x <> 247)%N) as H2.
    { intros [H%in_range_spec _]. congruence. }
    destruct (x =? 255)%N eqn:E3.
    { apply N.eqb_eq in E3. right. by left. }
    destruct (x =? 181)%N eqn:E4.
    { apply N.eqb_eq in E4. right. right. by left. }
    apply N.eqb_neq in E3, E4. right. right. right. done.
Qed.

Lemma nice_char_fold k x :
  nice_char k = true -> upper1 x = k <-> lower1 x = lower1 k.
Proof.
  unfold nice_char. rewrite !orb_true_iff, in_range_spec, N.ltb_lt, N.leb_le.
  intros Hk.
  destruct (upper1_spec x) as [[? Hu]|[[? Hu]|[[? Hu]|(? & ? & ? & ? & Hu)]]];
    destruct (lower1_spec x) as [[? Hl]|(? & ? & Hl)];
    destruct (lower1_spec k) as [[? Hlk]|(? & ? & Hlk)];
    rewrite Hu, Hl, Hlk; lia.
Qed.

Lemma upper1_not_lower x : in_range 97 122 (upper1 x) = false.
Proof.
  apply not_true_is_false. rewrite in_range_spec.
  destruct (upper1_spec x) as [[? Hu]|[[? Hu]|[[? Hu]|(? & ? & ? & ? & Hu)]]];
    rewrite Hu; lia.
Qed.

Lemma nice_keyword_fold (kw w : str) :
  forallb nice_char kw = true ->
  upper1 <$> w = kw <-> lower1 <$> w = lower1 <$> kw.
Proof.
  revert w. induction kw as [|k kw IH]; intros [|x w]; simpl; try done.
  rewrite andb_true_iff. intros [Hk Hkw]. split.
  - intros [= Hx Hw]. f_equal; [by apply nice_char_fold|by apply IH].
  - intros [= Hx Hw]. f_equal; [by apply nice_char_fold|by apply IH].
Qed.

(** A keyword of upper-case letters and caseless characters occurs in the
    upper-cased text exactly where it occurs without regard to case. *)
Lemma nice_keyword_contains (kw w : str) :
  forallb nice_char kw = true ->
  contains kw (upper1 <$> w) = true <-> contains (lower kw) (lower w) = true.
Proof.
  intros Hkw. rewrite !contains_app. unfold lower. split.
  - intros (pre & post & H).
    apply fmap_app_inv in H as (w1 & w23 & -> & H & ->).
    symmetry in H. apply fmap_app_inv in H as (w2 & w3 & H2 & -> & ->).
    exists (lower1 <$> w1), (lower1 <$> w3). rewrite !fmap_app. do 2 f_equal.
    by apply nice_keyword_fold.
  - intros (pre & post & H).
    apply fmap_app_inv in H as (w1 & w23 & -> & H & ->).
    symmetry in H. apply fmap_app_inv in H as (w2 & w3 & H2 & -> & ->).
    exists (upper1 <$> w1), (upper1 <$> w3). rewrite !fmap_app. do 2 f_equal.
    by apply nice_keyword_fold.
Qed.

Lemma lower_keyword_absent (kw w : str) :
  has_lower kw = true -> contains kw (upper1 <$> w) = false.
Proof.
  intros Hl. apply not_true_is_false. intros (pre & post & H)%contains_app.
  unfold has_lower in Hl. apply existsb_exists in Hl as (k & Hk & Hr).
  assert (k ∈ upper1 <$> w) as Hin.
  { rewrite H, !elem_of_app. right. left. by apply list_elem_of_In. }
  apply list_elem_of_fmap in Hin as (x & -> & _).
  by rewrite upper1_not_lower in Hr.
Qed.

(** For a sound keyword list, a keyword occurs in the upper-cased text if
    and only if a keyword occurs in the text without regard to case. *)
Lemma keywords_fold (kws : list str) (w : str) :
  kws_ok kws = true ->
  (exists kw, kw ∈ kws /\ contains kw (upper1 <$> w) = true)
  <-> existsb (fun kw => contains (lower kw) (lower w)) kws = true.
Proof.
  intros Hok. unfold kws_ok in Hok. rewrite forallb_forall in Hok.
  rewrite existsb_exists. split.
  - intros (kw & Hkw & Hc). exists kw. split; [by apply list_elem_of_In|].
    specialize (Hok kw (proj1 (list_elem_of_In _ _) Hkw)).
    apply orb_true_iff in Hok as [Hn|[Hl _]%andb_true_iff].
    + by apply nice_keyword_contains.
    + by rewrite lower_keyword_absent in Hc.
  - intros (kw & Hkw & Hc). specialize (Hok kw Hkw).
    apply orb_true_iff in Hok as [Hn|[_ Hcov]%andb_true_iff].
    + exists kw. split; [by apply list_elem_of_In|]. by apply nice_keyword_contains.
    + unfold covered in Hcov.
      apply existsb_exists in Hcov as (kw' & Hkw' & [Hn Hsub]%andb_true_iff).
      exists kw'. split; [by apply list_elem_of_In|].
      apply nice_keyword_contains; [done|]. by eapply contains_trans.
Qed.

Lemma bank_loop_fold table (w : str) :
  Forall (fun e : str * list str => e.2 <> [] /\ kws_ok e.2 = true) table ->
  bank_loop table (upper1 <$> w) = spec_bank_in table w.
Proof.
  induction 1 as [|[name kws] table [Hne Hok] _ IH]; [done|]. simpl in *.
  rewrite IH.
  assert (matched (re_search NOFLAGS (alt (lit <$> kws)) (upper1 <$> w))
          = existsb (fun kw => contains (lower kw) (lower w)) kws) as ->; [|done].
  apply eq_true_iff_eq. rewrite search_keywords by done. by apply keywords_fold.
Qed.

Section MarkerFacts.
Variable s : str.
Variable markers : list str.
Hypothesis markers_nonempty : markers <> [].

(** At a position of the text, the case-insensitive alternation of the
  markers matches exactly when a marker stands there up to case. *)
Lemma marker_at i :
i <= length s ->
is_Some (run I_ s (alt (lit <$> markers)) i [] accept)
<-> existsb (fun mk => bool_decide (take (length mk) (lower (drop i s)) = lower mk))
            markers = true.
Proof.
intros Hi. assert (lit <$> markers <> []) as Hne by (by destruct markers).
rewrite existsb_exists. split.
- intros [v Hv]. apply run_sound in Hv as (j & c & Hsem & _).
  apply sem_alt in Hsem as (r & Hr & Hsem); [|done].
  apply list_elem_of_fmap in Hr as (mk & -> & Hmk).
  apply sem_lit in Hsem as (-> & _ & HF).
  exists mk. split; [by apply list_elem_of_In|]. apply bool_decide_eq_true.
  unfold lower. rewrite <- fmap_take. unfold slice in HF.
  replace (i + length mk - i) with (length mk) in HF by lia.
  revert HF. generalize (take (length mk) (drop i s)). clear.
  induction mk as [|p mk IH]; intros l HF.
  + by apply Forall2_nil_inv_l in HF as ->.
  + apply Forall2_cons_inv_l in HF as (x & l' & Hx%N.eqb_eq & HF & ->).
    rewrite !fmap_cons, (IH _ HF). by f_equal.
- intros (mk & Hmk & Hb). apply bool_decide_eq_true in Hb.
  apply (run_complete I_ s _ (plain_ahead_alt_lits markers) i [] (i + length mk) []);
    [|done].
  apply sem_alt; [done|]. exists (lit mk).
  split; [apply list_elem_of_fmap_2; by apply list_elem_of_In|].
  apply sem_lit. split; [done|]. split; [done|].
  unfold slice. replace (i + length mk - i) with (length mk) by lia.
  unfold lower in Hb. rewrite <- fmap_take in Hb.
  revert Hb. generalize (take (length mk) (drop i s)). clear.
  induction mk as [|p mk IH]; intros [|x l] Hb; try done.
  rewrite !fmap_cons in Hb. injection Hb as Hx Hl. constructor; [|by apply IH].
  simpl. rewrite Hx. apply N.eqb_refl.
Qed.

Lemma scan_marker n i :
i + n = length s ->
(fst <$> scan I_ s (alt (lit <$> markers)) n i)
= spec_first_marker markers (drop i s) i.
Proof.
revert i. induction n as [|n IH]; intros i Hn.
- pose proof (marker_at i ltac:(lia)) as Hat.
  rewrite drop_ge in * by lia. cbn [scan spec_first_marker].
  destruct (run I_ s (alt (lit <$> markers)) i [] accept) as [v|].
  + by rewrite (proj1 Hat) by eauto.
  + destruct (existsb _ markers); [|done].
    by destruct (proj2 Hat eq_refl).
- pose proof (marker_at i ltac:(lia)) as Hat.
  destruct (lookup_lt_is_Some_2 s i) as [x Hx]; [lia|].
  cbn [scan]. rewrite (drop_S _ _ _ Hx) in *. cbn [spec_first_marker].
  destruct (run I_ s (alt (lit <$> markers)) i [] accept) as [v|].
  + by rewrite (proj1 Hat) by eauto.
  + destruct (existsb _ markers).
    * by destruct (proj2 Hat eq_refl).
    * apply IH. lia.
Qed.

(** The offset of the match of the marker pattern is the offset of the
  first marker. *)
Lemma search_marker :
(m_start <$> re_search I_ (alt (lit <$> markers)) s)
= spec_first_marker markers s 0.
Proof.
unfold re_search, re_search_from. simpl. rewrite Nat.sub_0_r.
pose proof (scan_marker (length s) 0 eq_refl) as H. rewrite drop_0 in H.
rewrite <- H. by destruct (scan I_ s (alt (lit <$> markers)) (length s) 0).
Qed.
End MarkerFacts.

(** For a text in which upper-casing keeps every character single (in the
    character data of this development: a text without sharp s), the bank
    that the code finds is the bank of the wording of the specification:
    the search in the text before the first marker, in the order of the
    table and without regard to case, then the search in the whole text. *)
Lemma find_bank_refines (text : str) :
  Forall (fun x => x <> 223%N) text ->
  find_bank text = spec_bank_resolver text.
Proof.
  intros Hs.
  assert (Htab : Forall (fun e : str * list str => e.2 <> [] /\ kws_ok e.2 = true)
                        bank_keywords).
  { apply Forall_forall. intros e He. split.
    - revert e He. apply Forall_forall. unfold bank_keywords.
      repeat constructor; done.
    - assert (forallb (fun e : str * list str => kws_ok e.2) bank_keywords = true)
        as Hall by (vm_compute; reflexivity).
      rewrite forallb_forall in Hall. apply Hall. by apply list_elem_of_In. }
  unfold find_bank, spec_bank_resolver, sender_section_text.
  pose proof (search_marker text recipient_markers ltac:(done)) as Hm.
  rewrite (upper_single _ Hs).
  assert (Hwin :
            match re_search I_ (alt (lit <$> recipient_markers)) text with
            | Some mt => take (m_start mt) (upper1 <$> text)
            | None => upper1 <$> text
            end
            = upper1 <$> match spec_first_marker recipient_markers text 0 with
                         | Some p => take p text
                         | None => text
                         end).
  { rewrite <- Hm.
    destruct (re_search I_ (alt (lit <$> recipient_markers)) text); simpl; [|done].
    by rewrite fmap_take. }
  rewrite Hwin, !bank_loop_fold by done.
  destruct (spec_bank_in bank_keywords _) as [b|] eqn:E; [|done].
  assert (b <> []) as Hb.
  { assert (Hnames : Forall (fun e : str * list str => e.1 <> []) bank_keywords)
      by (unfold bank_keywords; repeat constructor; done).
    revert E Hnames. generalize bank_keywords. clear.
    induction l as [|[name kws] l IH]; simpl; [done|].
    intros E [Hn Hl]%Forall_cons. destruct (existsb _ kws); [|by apply IH].
    by injection E as <-. }
  by destruct b.
Qed.
